(** * The chat widget of [frontend/chatbot-ui]: conversation state and [sendMessage]

    A shallow embedding of [src/Chat.jsx].  The component keeps three pieces of
    hook state ([messages], [input], [loading]) and one asynchronous function,
    [sendMessage], which is embedded here as a resumable process: a tree of
    state-setter calls, suspension points ([await]) and exceptions.

    What is modelled, and how:
    - strings are sequences of UTF-16 code units, so that [trim] strips what
      ECMAScript says it strips;
    - a setter call queues an update, and the updates of a handler are in
      the state before the next handler runs (React re-renders between two
      events), so a handler reads the [input] and [loading] left by the
      previous one;
    - the updater passed to [setMessages] is a function that React calls
      later; what its body evaluates, it evaluates then, not inside the
      [try] statement that made the call;
    - the JSX of [Chat] and of [Message] is a tree of elements that carries
      the handlers of the render it comes from;
    - [Message] draws its [text] as an expression child: the render throws,
      and React unmounts the component, when a message it has to draw holds
      an object or an array holding one;
    - the scrolling effect is not modelled.

    Layout: the JavaScript values the component handles (module [JS]), the
    component's data, the process monad, [sendMessage] itself, the event loop
    that drives it, the view and the page's events, and then the
    properties. *)

From Stdlib Require Import NArith Floats.PrimFloat.
From stdpp Require Import base option list strings gmap.

#[local] Set Warnings "-register-all".
#[local] Open Scope N_scope.

(* ===================================================================== *)
(** ** JavaScript values *)
(* ===================================================================== *)

Module JS.

(** A JavaScript string is a sequence of UTF-16 code units. *)
Abbreviation jsstring := (list N).

(** An ASCII literal of the source, as code units. *)
Definition js (s : string) : jsstring :=
  map Ascii.N_of_ascii (String.list_ascii_of_string s).

(** The code units [String.prototype.trim] strips: ECMAScript's WhiteSpace
    (TAB, VT, FF, SP, NBSP, ZWNBSP and the space separators) and
    LineTerminator (LF, CR, LS, PS). *)
Definition is_white_space (c : N) : bool :=
  (0x09 <=? c) && (c <=? 0x0D)
  || (c =? 0x20) || (c =? 0xA0) || (c =? 0x1680)
  || (0x2000 <=? c) && (c <=? 0x200A)
  || (c =? 0x2028) || (c =? 0x2029) || (c =? 0x202F)
  || (c =? 0x205F) || (c =? 0x3000) || (c =? 0xFEFF).

Fixpoint trim_start (s : jsstring) : jsstring :=
  match s with
  | c :: s' => if is_white_space c then trim_start s' else s
  | [] => []
  end.

Definition trim_end (s : jsstring) : jsstring :=
  rev (trim_start (rev s)).

(** [s.trim()] *)
Definition trim (s : jsstring) : jsstring :=
  trim_end (trim_start s).

(** ToBoolean on a string: only the empty string is falsy. *)
Definition to_boolean (s : jsstring) : bool :=
  match s with [] => false | _ :: _ => true end.

(** What [JSON.parse] (and so [res.json()]) can produce.  Numbers are
    binary64; an object is a finite map from property names to values. *)
Inductive json : Type :=
| JNull
| JBool (b : bool)
| JNum (x : float)
| JStr (s : jsstring)
| JArr (items : list json)
| JObj (props : gmap jsstring json).

(** The values a message's [text] can hold: [undefined], or a parsed value
    (a string typed by the user is a [JStr]). *)
Inductive value : Type :=
| undefined
| Of (j : json).

(** The settlement of a promise.  The rejection reason is dropped: the only
    handler in the component is a [catch] without a binding. *)
Inductive settled (A : Type) : Type :=
| Fulfilled (a : A)
| Rejected.
Arguments Fulfilled {A} a.
Arguments Rejected {A}.

End JS.
Import JS.

(* ===================================================================== *)
(** ** The component's data *)
(* ===================================================================== *)

(** [role: "user"] and [role: "bot"]: the two literals the source writes. *)
Inductive sender : Type := user | bot.

(** [{ role, text }] *)
Record message : Type := Message { role : sender; text : value }.

(** The three [useState] cells of [Chat]. *)
Record state : Type := State {
  messages : list message;
  input : jsstring;
  loading : bool
}.

(** [useState([])], [useState("")], [useState(false)] *)
Definition initial : state :=
  {| messages := []; input := []; loading := false |}.

(** The argument of [JSON.stringify] stands for the serialised text. *)
Inductive body_text : Type :=
| JSON_stringify (v : json).

(** The second argument of [fetch]. *)
Record request_init : Type := RequestInit {
  method : jsstring;
  headers : list (jsstring * jsstring);
  body : body_text
}.

(** A [Response].  [status] is the HTTP status; [parsed] is what [res.json()]
    settles to: [Some v] when the body text is the JSON value [v], [None]
    when reading or parsing the body fails and the promise rejects. *)
Record response : Type := Response {
  status : N;
  parsed : option json
}.

Definition json_promise (res : response) : settled json :=
  match parsed res with
  | Some v => Fulfilled v
  | None => Rejected
  end.

(* ===================================================================== *)
(** ** Processes: the body of an [async] function *)
(* ===================================================================== *)

(** A state updater handed to [setMessages]: a function of the previous
    list that React calls when it processes the update.  [None] is an
    exception thrown by the updater's body. *)
Definition updater : Type := list message -> option (list message).

(** The calls [sendMessage] makes on the component's setters. *)
Inductive effect : Type :=
| SetMessages (f : updater)
| SetInput (v : jsstring)
| SetLoading (b : bool).

(** The code of an [async] function, up to its next observable action.
    [Throw] is an exception in flight; the two [Await] nodes are the
    [await fetch(url, init)] and [await res.json()] suspension points, each
    with the continuation that receives the settlement. *)
Inductive proc (A : Type) : Type :=
| Ret (a : A)
| Throw
| Do (e : effect) (k : proc A)
| AwaitFetch (url : jsstring) (init : request_init)
             (k : settled response -> proc A)
| AwaitJson (res : response) (k : settled json -> proc A).
Arguments Ret {A} a.
Arguments Throw {A}.
Arguments Do {A} e k.
Arguments AwaitFetch {A} url init k.
Arguments AwaitJson {A} res k.

Fixpoint bind {A B : Type} (m : proc A) (f : A -> proc B) : proc B :=
  match m with
  | Ret a => f a
  | Throw => Throw
  | Do e k => Do e (bind k f)
  | AwaitFetch url init k => AwaitFetch url init (fun r => bind (k r) f)
  | AwaitJson res k => AwaitJson res (fun r => bind (k r) f)
  end.

#[global] Instance proc_ret : MRet proc := @Ret.
#[global] Instance proc_bind : MBind proc := fun A B f m => bind m f.

(** [try { body } catch { handler }]: an exception of [body] runs [handler]. *)
Fixpoint try_catch {A : Type} (body handler : proc A) : proc A :=
  match body with
  | Ret a => Ret a
  | Throw => handler
  | Do e k => Do e (try_catch k handler)
  | AwaitFetch url init k => AwaitFetch url init (fun r => try_catch (k r) handler)
  | AwaitJson res k => AwaitJson res (fun r => try_catch (k r) handler)
  end.

(** [try { body } finally { fin }]: [fin] runs on both exits, and the exit
    of [body] is then resumed. *)
Fixpoint try_finally {A : Type} (body : proc A) (fin : proc unit) : proc A :=
  match body with
  | Ret a => bind fin (fun _ => Ret a)
  | Throw => bind fin (fun _ => Throw)
  | Do e k => Do e (try_finally k fin)
  | AwaitFetch url init k => AwaitFetch url init (fun r => try_finally (k r) fin)
  | AwaitJson res k => AwaitJson res (fun r => try_finally (k r) fin)
  end.

(** [try { body } catch { handler } finally { fin }] *)
Definition try_catch_finally {A : Type}
    (body handler : proc A) (fin : proc unit) : proc A :=
  try_finally (try_catch body handler) fin.

(** [await p]: the fulfilment value, or the rejection thrown. *)
Definition resume {A : Type} (r : settled A) : proc A :=
  match r with
  | Fulfilled a => Ret a
  | Rejected => Throw
  end.

Definition await_fetch (url : jsstring) (init : request_init) : proc response :=
  AwaitFetch url init resume.

Definition await_json (res : response) : proc json :=
  AwaitJson res resume.

Definition setMessages (f : updater) : proc unit := Do (SetMessages f) (Ret tt).
Definition setInput (v : jsstring) : proc unit := Do (SetInput v) (Ret tt).
Definition setLoading (b : bool) : proc unit := Do (SetLoading b) (Ret tt).

(* ===================================================================== *)
(** ** [Chat.jsx] *)
(* ===================================================================== *)

(** [const API_URL = "http://127.0.0.1:8000/chat"] *)
Definition API_URL : jsstring := js "http://127.0.0.1:8000/chat".

(** ["Server not reachable 😕"]: the emoji U+1F615 is the surrogate pair
    D83D DE15. *)
Definition fallback_text : jsstring :=
  js "Server not reachable " ++ [0xD83D; 0xDE15].

(** [data.reply].  Reading a property of [null] throws a TypeError; an
    object yields its own property or [undefined]; booleans, numbers,
    strings and arrays have no [reply] on their prototypes. *)
Definition get_reply (data : json) : option value :=
  match data with
  | JNull => None
  | JObj props => Some (from_option Of undefined (props !! js "reply"))
  | JBool _ | JNum _ | JStr _ | JArr _ => Some undefined
  end.

(** [prev => [...prev, { role: "user", text: userText }]] *)
Definition append_user (userText : jsstring) : updater :=
  fun prev => Some (prev ++ [ {| role := user; text := Of (JStr userText) |} ]).

(** [prev => [...prev, { role: "bot", text: data.reply }]]: the property is
    read inside the arrow function, when the updater is called. *)
Definition append_reply (data : json) : updater :=
  fun prev => reply ← get_reply data;
              Some (prev ++ [ {| role := bot; text := reply |} ]).

(** [prev => [...prev, { role: "bot", text: "Server not reachable 😕" }]] *)
Definition append_fallback : updater :=
  fun prev => Some (prev ++ [ {| role := bot; text := Of (JStr fallback_text) |} ]).

(** The [fetch] options of the request:
    [{ method: "POST", headers: { "Content-Type": "application/json" },
       body: JSON.stringify({ message: userText }) }] *)
Definition post (userText : jsstring) : request_init :=
  {| method := js "POST";
     headers := [ (js "Content-Type", js "application/json") ];
     body := JSON_stringify (JObj {[ js "message" := JStr userText ]}) |}.

(** The [try { ... } catch { ... } finally { ... }] statement of
    [sendMessage]. *)
Definition exchange (userText : jsstring) : proc unit :=
  try_catch_finally
    (res ← await_fetch API_URL (post userText);
     data ← await_json res;
     setMessages (append_reply data))
    (setMessages append_fallback)
    (setLoading false).

(** [async function sendMessage()], closed over the [input] and [loading] of
    the render it was created in. *)
Definition sendMessage (input : jsstring) (loading : bool) : proc unit :=
  if negb (to_boolean (trim input)) || loading then Ret tt
  else
    let userText := input in
    setMessages (append_user userText);;
    setInput [];;
    setLoading true;;
    exchange userText.

(* ===================================================================== *)
(** ** Running the component *)
(* ===================================================================== *)

(** React applies a queued update to its state cell.  An updater that
    throws does so when React calls it: React's dispatch suppresses the
    exception of an eager call and the render that processes the queue
    raises it, outside any [try] of the code that queued the update.  The
    update then yields no state ([None]). *)
Definition apply_effect (e : effect) (s : state) : option state :=
  match e with
  | SetMessages f =>
      msgs ← f (messages s);
      Some {| messages := msgs; input := input s; loading := loading s |}
  | SetInput v =>
      Some {| messages := messages s; input := v; loading := loading s |}
  | SetLoading b =>
      Some {| messages := messages s; input := input s; loading := b |}
  end.

(** How a stretch of synchronous execution ends. *)
Inductive pause : Type :=
| Returned                    (* the async function's promise fulfils *)
| Threw                       (* ... or rejects *)
| Suspended (p : proc unit).  (* parked at an [await] *)

(** Run a process up to its next suspension, applying its setter calls in
    order.  [None]: an update made the render fail. *)
Fixpoint drive (p : proc unit) (s : state) : option (state * pause) :=
  match p with
  | Ret _ => Some (s, Returned)
  | Throw => Some (s, Threw)
  | Do e k => s' ← apply_effect e s; drive k s'
  | AwaitFetch _ _ _ | AwaitJson _ _ => Some (s, Suspended p)
  end.

(** The setter calls a process makes before it first suspends or ends, in
    program order, and the point it stops at. *)
Fixpoint sync_effects {A : Type} (p : proc A) : list effect :=
  match p with
  | Do e k => e :: sync_effects k
  | _ => []
  end.

Fixpoint sync_rest {A : Type} (p : proc A) : proc A :=
  match p with
  | Do _ k => sync_rest k
  | _ => p
  end.

(** The mounted component: its hook state and the calls of [sendMessage]
    that are parked at an [await]. *)
Record chat : Type := Mounted {
  hooks : state;
  inflight : list (proc unit)
}.

Definition mount : chat := {| hooks := initial; inflight := [] |}.

(** What can happen to the component.  Handlers run one at a time, each
    against the state left by the previous one. *)
Inductive event : Type :=
| Change (v : jsstring)                       (* onChange: setInput(e.target.value) *)
| Submit                                      (* onClick, or Enter without Shift: sendMessage() *)
| FetchSettles (i : nat) (r : settled response) (* the i-th parked call: fetch settles *)
| JsonSettles (i : nat).                      (* the i-th parked call: res.json() settles *)

Inductive result : Type :=
| Next (c : chat)   (* the component re-rendered with this state *)
| Crash            (* an updater threw, or a text cannot be rendered: React unmounts the component *)
| Unhandled        (* sendMessage's promise rejected *)
| Stuck.           (* the event cannot occur in this configuration *)

(** What React does with an expression child ([{text}] in [Message.jsx]):
    a string or a number is drawn, a boolean, [null] and [undefined] draw
    nothing, an array draws its items, and a plain object makes the render
    throw (objects are not valid as a React child). *)
Fixpoint renderable (j : json) : bool :=
  match j with
  | JObj _ => false
  | JArr items => forallb renderable items
  | JNull | JBool _ | JNum _ | JStr _ => true
  end.

Definition value_renderable (v : value) : bool :=
  match v with
  | undefined => true
  | Of j => renderable j
  end.

(** The render that follows the updates of a handler.  The component is
    mounted, so the messages it held have been rendered; the render throws
    when a message that comes with the update holds a text React cannot
    render. *)
Definition renders (before after : state) : bool :=
  forallb (fun m => value_renderable (text m))
          (drop (length (messages before)) (messages after)).

(** Continue a call of [sendMessage] with [p], then render; [others] builds
    the parked list from what the call leaves parked. *)
Definition continue (p : proc unit) (s : state)
    (others : list (proc unit) -> list (proc unit)) : result :=
  match drive p s with
  | None => Crash
  | Some (s', ending) =>
      if renders s s' then
        match ending with
        | Returned => Next {| hooks := s'; inflight := others [] |}
        | Threw => Unhandled
        | Suspended p' => Next {| hooks := s'; inflight := others [p'] |}
        end
      else Crash
  end.

Definition step (e : event) (c : chat) : result :=
  let s := hooks c in
  match e with
  | Change v =>
      continue (setInput v) s (fun _ => inflight c)
  | Submit =>
      continue (sendMessage (input s) (loading s)) s (fun l => inflight c ++ l)
  | FetchSettles i r =>
      match inflight c !! i with
      | Some (AwaitFetch _ _ k) =>
          continue (k r) s (fun l => take i (inflight c) ++ l ++ drop (S i) (inflight c))
      | _ => Stuck
      end
  | JsonSettles i =>
      match inflight c !! i with
      | Some (AwaitJson res k) =>
          continue (k (json_promise res)) s
                   (fun l => take i (inflight c) ++ l ++ drop (S i) (inflight c))
      | _ => Stuck
      end
  end.

Fixpoint run (es : list event) (c : chat) : result :=
  match es with
  | [] => Next c
  | e :: es' =>
      match step e c with
      | Next c' => run es' c'
      | r => r
      end
  end.

Definition reachable (c : chat) : Prop :=
  exists es, run es mount = Next c.

(* ===================================================================== *)
(** ** Vocabulary for the properties *)
(* ===================================================================== *)

(** The component with state [s] and no call of [sendMessage] parked. *)
Definition idle (s : state) : chat := {| hooks := s; inflight := [] |}.

Definition user_message (userText : jsstring) : message :=
  {| role := user; text := Of (JStr userText) |}.

Definition bot_message (t : value) : message :=
  {| role := bot; text := t |}.

Definition fallback_message : message :=
  bot_message (Of (JStr fallback_text)).

(** The call of [sendMessage] parked at [await res.json()]: the [try]
    statement resumed past the fetch. *)
Definition reading (res : response) : proc unit :=
  try_catch_finally
    (data ← await_json res;
     setMessages (append_reply data))
    (setMessages append_fallback)
    (setLoading false).

(** What the user can do while a request is out: type, or try to submit. *)
Definition user_event (e : event) : bool :=
  match e with
  | Change _ | Submit => true
  | FetchSettles _ _ | JsonSettles _ => false
  end.

(** The draft after a run of user events that submit nothing. *)
Definition typed (es : list event) (draft : jsstring) : jsstring :=
  fold_left (fun d e => match e with Change v => v | _ => d end) es draft.

(** One submission from start to settlement: the submit, what the user does
    while the fetch is pending, the fetch settling and, when it fulfilled,
    what the user does while the body is read, and the body settling. *)
Definition round_trip (es1 : list event) (r : settled response)
    (es2 : list event) : list event :=
  Submit :: es1 ++ FetchSettles 0 r ::
    match r with
    | Fulfilled _ => es2 ++ [JsonSettles 0]
    | Rejected => []
    end.

(** The user events that precede the settlement of [round_trip]. *)
Definition meanwhile (es1 : list event) (r : settled response)
    (es2 : list event) : list event :=
  match r with
  | Fulfilled _ => es1 ++ es2
  | Rejected => es1
  end.

(** The text of the bot message a settlement leads to; [None] when the
    updater that would append it throws. *)
Definition bot_text (r : settled response) : option value :=
  match r with
  | Rejected => Some (Of (JStr fallback_text))
  | Fulfilled res =>
      match parsed res with
      | None => Some (Of (JStr fallback_text))
      | Some data => get_reply data
      end
  end.

(** The parked calls of a reachable configuration: none while [loading] is
    false, exactly one while it is true. *)
Inductive consistent : chat -> Prop :=
| at_rest msgs draft :
    consistent {| hooks := State msgs draft false; inflight := [] |}
| fetching msgs draft userText :
    consistent {| hooks := State msgs draft true; inflight := [exchange userText] |}
| reading_body msgs draft res :
    consistent {| hooks := State msgs draft true; inflight := [reading res] |}.

(** The value of [data.reply] for a parsed body that is not [null]:
    the property of an object, [undefined] when the object lacks it or the
    value is no object. *)
Definition reply_field (data : json) : value :=
  match data with
  | JObj props => from_option Of undefined (props !! js "reply")
  | _ => undefined
  end.

(** The steps a consistent configuration can take, as a relation: what
    [step] computes, case by case. *)
Inductive transition : chat -> event -> chat -> Prop :=
| t_change c v :
    transition c (Change v)
      {| hooks := State (messages (hooks c)) v (loading (hooks c));
         inflight := inflight c |}
| t_ignored c :
    negb (to_boolean (trim (input (hooks c)))) || loading (hooks c) = true ->
    transition c Submit c
| t_accepted msgs draft :
    to_boolean (trim draft) = true ->
    transition (idle (State msgs draft false)) Submit
      {| hooks := State (msgs ++ [user_message draft]) [] true;
         inflight := [exchange draft] |}
| t_fetch_fulfilled s userText res :
    transition {| hooks := s; inflight := [exchange userText] |}
      (FetchSettles 0 (Fulfilled res))
      {| hooks := s; inflight := [reading res] |}
| t_fetch_rejected s userText :
    transition {| hooks := s; inflight := [exchange userText] |}
      (FetchSettles 0 Rejected)
      (idle (State (messages s ++ [fallback_message]) (input s) false))
| t_json s res t :
    bot_text (Fulfilled res) = Some t ->
    value_renderable t = true ->
    transition {| hooks := s; inflight := [reading res] |}
      (JsonSettles 0)
      (idle (State (messages s ++ [bot_message t]) (input s) false)).

(** The states and responses of the worked scenarios. *)
Definition hello : state := State [] (js "Hello") false.

Definition hi_there : response :=
  {| status := 200;
     parsed := Some (JObj {[ js "reply" := JStr (js "Hi there") ]}) |}.

Definition server_error : response :=
  {| status := 500;
     parsed := Some (JObj {[ js "detail" := JStr (js "Internal Server Error") ]}) |}.

Definition null_body : response :=
  {| status := 200; parsed := Some JNull |}.

(** A body whose [reply] is an object: [{"reply": {"text": "Hi there"}}]. *)
Definition object_reply : response :=
  {| status := 200;
     parsed := Some (JObj {[ js "reply" :=
                              JObj {[ js "text" := JStr (js "Hi there") ]} ]}) |}.

(** The configuration of the two-submit scenario: ["A"] is out, ["B"] has
    been typed. *)
Definition A_is_out : chat :=
  {| hooks := State [user_message (js "A")] (js "B") true;
     inflight := [exchange (js "A")] |}.

(* ===================================================================== *)
(** ** The view: [Message.jsx] and the JSX of [Chat] *)
(* ===================================================================== *)

(** The fields of a keyboard event that the handler reads. *)
Record key_event : Type := KeyEvent { key : jsstring; shiftKey : bool }.

(** React elements, as far as the two components write them.  A handler
    is the function the JSX attaches; [onKeyDown] also tells whether it
    called [e.preventDefault()]. *)
Inductive vnode : Type :=
| VText (s : jsstring)                      (* literal text *)
| VExpr (v : value)                         (* an expression child: {text} *)
| VFalse                                    (* the [false] of [loading && ...] *)
| VArray (items : list (nat * vnode))       (* keyed elements, from [.map] *)
| VDiv (className : jsstring) (children : list vnode)
| VAnchor                                   (* <div ref={bottomRef} /> *)
| VTextarea (rows val placeholder : jsstring)
            (onChange : jsstring -> proc unit)
            (onKeyDown : key_event -> bool * proc unit)
| VButton (onClick : proc unit) (disabled : bool) (children : list vnode).

(** The string a [role] is in the source. *)
Definition role_name (r : sender) : jsstring :=
  match r with
  | user => js "user"
  | bot => js "bot"
  end.

(** [Message({ role, text, typing })] of [Message.jsx] (the name [Message]
    is the record's here).  [typing] is [true] or absent. *)
Definition Message_component (r : sender) (t : value) (typing : bool) : vnode :=
  VDiv (js "message-row " ++ role_name r)
    [ VDiv (js "message-bubble " ++ (if typing then js "typing" else js ""))
        [ VExpr t ] ].

(** ["Typing…"], ["Send a message…"] (the ellipsis is U+2026) and ["➤"]
    (U+27A4). *)
Definition typing_text : jsstring := js "Typing" ++ [0x2026].
Definition placeholder_text : jsstring := js "Send a message" ++ [0x2026].
Definition send_glyph : jsstring := [0x27A4].

(** [e => setInput(e.target.value)], applied to the value of the target. *)
Definition handle_change (v : jsstring) : proc unit := setInput v.

(** [e => e.key === "Enter" && !e.shiftKey && (e.preventDefault(), sendMessage())],
    in the render with this [input] and [loading]. *)
Definition handle_key_down (input : jsstring) (loading : bool) (e : key_event)
    : bool * proc unit :=
  if bool_decide (key e = js "Enter") && negb (shiftKey e)
  then (true, sendMessage input loading)
  else (false, Ret tt).

(** [messages.map((m, i) => <Message key={i} role={m.role} text={m.text} />)] *)
Definition mapped (msgs : list message) : list (nat * vnode) :=
  imap (fun i m => (i, Message_component (role m) (text m) false)) msgs.

(** [<Message role="bot" text="Typing…" typing />] *)
Definition typing_indicator : vnode :=
  Message_component bot (Of (JStr typing_text)) true.

(** The children of [<div className="chat-body">]. *)
Definition body_children (s : state) : list vnode :=
  [ VArray (mapped (messages s));
    (if loading s then typing_indicator else VFalse);
    VAnchor ].

(** What [Chat] returns in a render with state [s]. *)
Definition Chat (s : state) : vnode :=
  VDiv (js "chat-root")
    [ VDiv (js "chat-header") [ VText (js "Storm Events Assistant") ];
      VDiv (js "chat-body") (body_children s);
      VDiv (js "chat-input")
        [ VTextarea (js "1") (input s) placeholder_text
            handle_change (handle_key_down (input s) (loading s));
          VButton (sendMessage (input s) (loading s)) (loading s)
            [ VText send_glyph ] ] ].

(** The children React puts in the document for one child expression: an
    array contributes its elements, [false] nothing. *)
Fixpoint shown (n : vnode) : list vnode :=
  match n with
  | VFalse => []
  | VArray items => flat_map (fun p => shown (snd p)) items
  | _ => [n]
  end.

(** The keys of the elements an array child contributes. *)
Definition keys (n : vnode) : list nat :=
  match n with
  | VArray items => map fst items
  | _ => []
  end.

(** Every node of a tree, in document order. *)
Fixpoint nodes (n : vnode) : list vnode :=
  n :: match n with
       | VArray items => flat_map (fun p => nodes (snd p)) items
       | VDiv _ children => flat_map nodes children
       | VButton _ _ children => flat_map nodes children
       | _ => []
       end.

(** The handlers of the text area, and the button's handler with its
    [disabled] attribute. *)
Definition textarea_of (n : vnode)
    : option ((jsstring -> proc unit) * (key_event -> bool * proc unit)) :=
  match n with
  | VTextarea _ _ _ onChange onKeyDown => Some (onChange, onKeyDown)
  | _ => None
  end.

Definition button_of (n : vnode) : option (proc unit * bool) :=
  match n with
  | VButton onClick disabled _ => Some (onClick, disabled)
  | _ => None
  end.

Definition the_textarea (tree : vnode)
    : option ((jsstring -> proc unit) * (key_event -> bool * proc unit)) :=
  head (omap textarea_of (nodes tree)).

Definition the_button (tree : vnode) : option (proc unit * bool) :=
  head (omap button_of (nodes tree)).

(** What the user does to the page. *)
Inductive dom_event : Type :=
| KeyDown (e : key_event)      (* a key goes down in the text area *)
| Click                        (* the button is clicked *)
| InputChange (v : jsstring).  (* the text area's value becomes [v] *)

(** Deliver a DOM event to the handler the current render attached.  The
    first component tells whether the default action was prevented.  A
    disabled button receives no click. *)
Definition dispatch (d : dom_event) (c : chat) : bool * result :=
  let s := hooks c in
  let parked := fun l => inflight c ++ l in
  match d with
  | KeyDown e =>
      match the_textarea (Chat s) with
      | Some (_, onKeyDown) =>
          (fst (onKeyDown e), continue (snd (onKeyDown e)) s parked)
      | None => (false, Stuck)
      end
  | Click =>
      match the_button (Chat s) with
      | Some (onClick, false) => (false, continue onClick s parked)
      | _ => (false, Stuck)
      end
  | InputChange v =>
      match the_textarea (Chat s) with
      | Some (onChange, _) => (false, continue (onChange v) s parked)
      | None => (false, Stuck)
      end
  end.

(** Everything that happens to the mounted component: what the user does,
    and the two settlements of a parked call. *)
Inductive ui_event : Type :=
| User (d : dom_event)
| FetchDone (i : nat) (r : settled response)
| BodyDone (i : nat).

Definition ui_step (u : ui_event) (c : chat) : result :=
  match u with
  | User d => snd (dispatch d c)
  | FetchDone i r => step (FetchSettles i r) c
  | BodyDone i => step (JsonSettles i) c
  end.

Fixpoint ui_run (us : list ui_event) (c : chat) : result :=
  match us with
  | [] => Next c
  | u :: us' =>
      match ui_step u c with
      | Next c' => ui_run us' c'
      | r => r
      end
  end.

(** The DOM event that brings about an event of the state machine: typing
    for [Change], the Enter key for [Submit]. *)
Definition enter_key : key_event := {| key := js "Enter"; shiftKey := false |}.

Definition realise (e : event) : ui_event :=
  match e with
  | Change v => User (InputChange v)
  | Submit => User (KeyDown enter_key)
  | FetchSettles i r => FetchDone i r
  | JsonSettles i => BodyDone i
  end.

(** The expression children ([{text}]) of a tree and the class names of its
    [div]s, in document order. *)
Definition expression_of (n : vnode) : option value :=
  match n with
  | VExpr v => Some v
  | _ => None
  end.

Definition class_of (n : vnode) : option jsstring :=
  match n with
  | VDiv className _ => Some className
  | _ => None
  end.

Definition expressions (tree : vnode) : list value :=
  omap expression_of (nodes tree).

Definition class_names (tree : vnode) : list jsstring :=
  omap class_of (nodes tree).

(** The configuration in which the body [null] is about to be read. *)
Definition reading_null : chat :=
  {| hooks := State [user_message (js "Hello")] [] true;
     inflight := [reading null_body] |}.

(** The draft after the user events [ds]: the last value typed, if any. *)
Definition last_typed (ds : list dom_event) (draft : jsstring) : jsstring :=
  fold_left (fun d0 d => match d with InputChange v => v | _ => d0 end) ds draft.

Definition is_click (d : dom_event) : bool :=
  match d with Click => true | _ => false end.

(** A parked call resumed with the settlement of its promise. *)
Definition after_fetch (p : proc unit) (r : settled response) : proc unit :=
  match p with
  | AwaitFetch _ _ k => k r
  | _ => p
  end.

Definition after_json (p : proc unit) (r : settled json) : proc unit :=
  match p with
  | AwaitJson _ k => k r
  | _ => p
  end.

(** A conversation of completed exchanges: each a user message with a text
    that is not blank, then the bot's message. *)
Inductive exchanges : list message -> Prop :=
| no_exchange : exchanges []
| one_more done userText t :
    exchanges done ->
    to_boolean (trim userText) = true ->
    exchanges (done ++ [user_message userText; bot_message t]).

(** [consistent], with the shape of the message list: completed exchanges,
    then the message of the submission that is out, if one is. *)
Inductive coherent : chat -> Prop :=
| co_rest done draft :
    exchanges done ->
    coherent {| hooks := State done draft false; inflight := [] |}
| co_fetching done draft userText :
    exchanges done ->
    to_boolean (trim userText) = true ->
    coherent {| hooks := State (done ++ [user_message userText]) draft true;
                inflight := [exchange userText] |}
| co_reading done draft userText res :
    exchanges done ->
    to_boolean (trim userText) = true ->
    coherent {| hooks := State (done ++ [user_message userText]) draft true;
                inflight := [reading res] |}.

(* ===================================================================== *)
(** ** [trim] *)
(* ===================================================================== *)

Section Trim.

Lemma trim_start_nil (s : jsstring) :
  trim_start s = [] <-> forallb is_white_space s = true.
Proof.
  induction s as [|c s IH]; cbn; [tauto|].
  destruct (is_white_space c); cbn; [exact IH|].
  split; discriminate.
Qed.

Lemma trim_start_head (s : jsstring) (c : N) (t : jsstring) :
  trim_start s = c :: t -> is_white_space c = false.
Proof.
  induction s as [|d s IH]; cbn; [discriminate|].
  destruct (is_white_space d) eqn:Hd; [exact IH|].
  intros [= <- <-]. exact Hd.
Qed.

Lemma forallb_rev (s : jsstring) :
  forallb is_white_space (rev s) = forallb is_white_space s.
Proof.
  induction s as [|c s IH]; [reflexivity|].
  cbn. rewrite forallb_app, IH. cbn.
  rewrite andb_true_r. apply andb_comm.
Qed.

Lemma trim_end_nil (s : jsstring) :
  trim_end s = [] <-> forallb is_white_space s = true.
Proof.
  unfold trim_end. rewrite <- forallb_rev, <- trim_start_nil.
  split; intros H.
  - apply (f_equal (@rev N)) in H. rewrite rev_involutive in H. exact H.
  - rewrite H. reflexivity.
Qed.

(** [s.trim()] is the empty string exactly when [s] holds nothing but
    white space (the empty string included). *)
Lemma trim_nil (s : jsstring) :
  trim s = [] <-> forallb is_white_space s = true.
Proof.
  unfold trim. rewrite trim_end_nil. split; intros H.
  - destruct (trim_start s) as [|c t] eqn:E.
    + apply trim_start_nil. exact E.
    + apply trim_start_head in E. cbn in H. rewrite E in H. discriminate.
  - apply trim_start_nil in H. rewrite H. reflexivity.
Qed.

Lemma to_boolean_trim (s : jsstring) :
  to_boolean (trim s) = negb (forallb is_white_space s).
Proof.
  destruct (forallb is_white_space s) eqn:E.
  - apply trim_nil in E. rewrite E. reflexivity.
  - destruct (trim s) eqn:T; [|reflexivity].
    apply trim_nil in T. congruence.
Qed.

End Trim.

(* ===================================================================== *)
(** ** Single steps *)
(* ===================================================================== *)

Section Steps.

Implicit Types (c : chat) (s : state) (es : list event).

Lemma run_app es1 es2 c :
  run (es1 ++ es2) c =
  match run es1 c with
  | Next c' => run es2 c'
  | r => r
  end.
Proof.
  revert c. induction es1 as [|e es1 IH]; intros c; [reflexivity|].
  cbn. destruct (step e c); auto.
Qed.

Lemma renders_same s s' : messages s' = messages s -> renders s s' = true.
Proof. intros E. unfold renders. rewrite E, drop_all. reflexivity. Qed.

Lemma renders_snoc s m draft busy :
  renders s (State (messages s ++ [m]) draft busy) = value_renderable (text m).
Proof.
  unfold renders. cbn [messages]. rewrite drop_app_length. cbn.
  apply andb_true_r.
Qed.

Lemma step_change c v :
  step (Change v) c =
  Next {| hooks := State (messages (hooks c)) v (loading (hooks c));
          inflight := inflight c |}.
Proof.
  unfold step, continue. cbn [setInput drive apply_effect mbind option_bind].
  rewrite renders_same by reflexivity. reflexivity.
Qed.

Lemma step_submit_ignored c :
  negb (to_boolean (trim (input (hooks c)))) || loading (hooks c) = true ->
  step Submit c = Next c.
Proof.
  intros H. unfold step, sendMessage. rewrite H.
  destruct c as [s l]. unfold continue. cbn [drive hooks inflight].
  rewrite renders_same, app_nil_r by reflexivity. reflexivity.
Qed.

Lemma step_submit_accepted c :
  to_boolean (trim (input (hooks c))) = true ->
  loading (hooks c) = false ->
  step Submit c =
  Next {| hooks := State (messages (hooks c) ++ [user_message (input (hooks c))])
                         [] true;
          inflight := inflight c ++ [exchange (input (hooks c))] |}.
Proof.
  intros Hd Hl. unfold step, sendMessage, continue. rewrite Hd, Hl.
  cbn [negb orb setMessages setInput setLoading mbind proc_bind bind drive
       apply_effect append_user option_bind messages input loading].
  change (drive (exchange (input (hooks c))) ?s) with
    (Some (s, Suspended (exchange (input (hooks c))))).
  cbn iota beta. rewrite renders_snoc. reflexivity.
Qed.

Lemma step_fetch_rejected s userText :
  step (FetchSettles 0 Rejected) {| hooks := s; inflight := [exchange userText] |} =
  Next (idle (State (messages s ++ [fallback_message]) (input s) false)).
Proof.
  change (step (FetchSettles 0 Rejected)
            {| hooks := s; inflight := [exchange userText] |})
    with (if renders s (State (messages s ++ [fallback_message]) (input s) false)
          then Next (idle (State (messages s ++ [fallback_message]) (input s) false))
          else Crash).
  rewrite renders_snoc. reflexivity.
Qed.

Lemma step_fetch_fulfilled s userText res :
  step (FetchSettles 0 (Fulfilled res))
       {| hooks := s; inflight := [exchange userText] |} =
  Next {| hooks := s; inflight := [reading res] |}.
Proof.
  change (step (FetchSettles 0 (Fulfilled res))
            {| hooks := s; inflight := [exchange userText] |})
    with (if renders s s then Next {| hooks := s; inflight := [reading res] |}
          else Crash).
  rewrite renders_same by reflexivity. reflexivity.
Qed.

Lemma step_json s res :
  step (JsonSettles 0) {| hooks := s; inflight := [reading res] |} =
  match bot_text (Fulfilled res) with
  | Some t =>
      if value_renderable t
      then Next (idle (State (messages s ++ [bot_message t]) (input s) false))
      else Crash
  | None => Crash
  end.
Proof.
  assert (H : forall t,
             (if renders s (State (messages s ++ [bot_message t]) (input s) false)
              then Next (idle (State (messages s ++ [bot_message t]) (input s) false))
              else Crash)
             = if value_renderable t
               then Next (idle (State (messages s ++ [bot_message t]) (input s) false))
               else Crash).
  { intros t. rewrite renders_snoc. reflexivity. }
  unfold bot_text. destruct res as [st [data|]]; cbn [parsed].
  - destruct (get_reply data) as [t|] eqn:T.
    + rewrite <- H. unfold step, continue, json_promise.
      cbn [inflight hooks lookup list_lookup reading parsed].
      destruct data; try discriminate T; injection T as <-; reflexivity.
    + destruct data; try discriminate T. reflexivity.
  - rewrite <- (H (Of (JStr fallback_text))). reflexivity.
Qed.

(** While [loading] is true, typing only changes the draft and a submit
    changes nothing. *)
Lemma run_busy es :
  forallb user_event es = true ->
  forall c, loading (hooks c) = true ->
  run es c =
  Next {| hooks := State (messages (hooks c)) (typed es (input (hooks c))) true;
          inflight := inflight c |}.
Proof.
  induction es as [|e es IH]; intros Hes c Hc.
  - destruct c as [[m d l] p]. cbn in *. subst l. reflexivity.
  - cbn in Hes. apply andb_prop in Hes as [He Hes].
    destruct e as [v| | |]; try discriminate; cbn [run].
    + rewrite step_change, (IH Hes) by exact Hc. reflexivity.
    + rewrite step_submit_ignored by (rewrite Hc; apply orb_true_r).
      rewrite (IH Hes) by exact Hc. reflexivity.
Qed.

(** A whole submission, with the user active while it is out. *)
Lemma round_trip_run s es1 r es2 :
  to_boolean (trim (input s)) = true ->
  loading s = false ->
  forallb user_event es1 = true ->
  forallb user_event es2 = true ->
  run (round_trip es1 r es2) (idle s) =
  match bot_text r with
  | Some t =>
      if value_renderable t
      then Next (idle (State (messages s ++ [user_message (input s); bot_message t])
                             (typed (meanwhile es1 r es2) []) false))
      else Crash
  | None => Crash
  end.
Proof.
  intros Hd Hl H1 H2. unfold round_trip. cbn [run].
  rewrite step_submit_accepted by assumption.
  rewrite run_app, (run_busy es1 H1) by reflexivity.
  cbn [hooks inflight idle messages input Datatypes.app].
  destruct r as [res|]; cbn [run meanwhile].
  - rewrite step_fetch_fulfilled, run_app, (run_busy es2 H2) by reflexivity.
    cbn [hooks inflight messages input run]. rewrite step_json.
    unfold typed. rewrite fold_left_app.
    destruct (bot_text (Fulfilled res)) as [t|]; [|reflexivity].
    destruct (value_renderable t); [|reflexivity].
    cbn [messages input]. rewrite <- app_assoc. reflexivity.
  - rewrite step_fetch_rejected. cbn [bot_text messages input value_renderable renderable].
    rewrite <- app_assoc. reflexivity.
Qed.

(** The one settlement with no bot text: a body that parses to [null]. *)
Lemma bot_text_none (r : settled response) :
  bot_text r = None <-> exists code, r = Fulfilled {| status := code; parsed := Some JNull |}.
Proof.
  split.
  - destruct r as [[code [data|]]|]; cbn; try discriminate.
    destruct data; cbn; try discriminate. intros _. exists code. reflexivity.
  - intros [code ->]. reflexivity.
Qed.

Lemma get_reply_spec (data : json) :
  get_reply data = match data with JNull => None | _ => Some (reply_field data) end.
Proof. destruct data; reflexivity. Qed.

(** The settlements after which the component is still there: the bot text
    exists and React can render it. *)
Lemma bot_text_drawn (r : settled response) :
  (forall res data,
      r = Fulfilled res -> parsed res = Some data ->
      data <> JNull /\ value_renderable (reply_field data) = true) ->
  exists t, bot_text r = Some t /\ value_renderable t = true.
Proof.
  intros Hr. destruct r as [[code [data|]]|]; cbn [bot_text parsed].
  - destruct (Hr _ data eq_refl eq_refl) as [Hn Hd].
    rewrite get_reply_spec. destruct data; try contradiction; eauto.
  - eexists; split; reflexivity.
  - eexists; split; reflexivity.
Qed.

End Steps.

(* ===================================================================== *)
(** ** The invariant of the reachable configurations *)
(* ===================================================================== *)

Section Invariant.

Implicit Types (c : chat) (e : event) (es : list event).

Lemma consistent_mount : consistent mount.
Proof. apply at_rest. Qed.

(** A submit is either ignored or accepted, by the guard. *)
Lemma submit_cases c :
  (negb (to_boolean (trim (input (hooks c)))) || loading (hooks c) = true
   /\ step Submit c = Next c)
  \/ (to_boolean (trim (input (hooks c))) = true /\ loading (hooks c) = false
      /\ step Submit c =
         Next {| hooks := State (messages (hooks c) ++ [user_message (input (hooks c))])
                                [] true;
                 inflight := inflight c ++ [exchange (input (hooks c))] |}).
Proof.
  destruct (negb (to_boolean (trim (input (hooks c)))) || loading (hooks c)) eqn:G.
  - left. split; [reflexivity|]. apply step_submit_ignored, G.
  - right. apply orb_false_elim in G as [Gd Gl]. apply negb_false_iff in Gd.
    auto using step_submit_accepted.
Qed.

Lemma step_transition c e c' :
  consistent c -> step e c = Next c' -> transition c e c'.
Proof.
  intros Hc H. destruct e as [v| |i r|i].
  - rewrite step_change in H. injection H as <-. apply t_change.
  - destruct (submit_cases c) as [[G E]|(Gd & Gl & E)];
      rewrite E in H; injection H as <-.
    + apply t_ignored, G.
    + destruct Hc; try discriminate Gl. apply t_accepted, Gd.
  - destruct Hc as [msgs draft|msgs draft userText|msgs draft res];
      destruct i as [|[|i]]; try discriminate H.
    destruct r as [res|].
    + rewrite step_fetch_fulfilled in H. injection H as <-.
      apply t_fetch_fulfilled.
    + rewrite step_fetch_rejected in H. injection H as <-.
      apply t_fetch_rejected.
  - destruct Hc as [msgs draft|msgs draft userText|msgs draft res];
      destruct i as [|[|i]]; try discriminate H.
    rewrite step_json in H.
    destruct (bot_text (Fulfilled res)) as [t|] eqn:T; [|discriminate H].
    destruct (value_renderable t) eqn:R; [|discriminate H].
    injection H as <-. apply t_json; assumption.
Qed.

Lemma transition_consistent c e c' :
  consistent c -> transition c e c' -> consistent c'.
Proof.
  intros Hc T. destruct T.
  - destruct Hc; constructor.
  - exact Hc.
  - apply fetching.
  - inversion Hc; subst; apply reading_body.
  - apply at_rest.
  - apply at_rest.
Qed.

Lemma step_consistent c e c' :
  consistent c -> step e c = Next c' -> consistent c'.
Proof. eauto using transition_consistent, step_transition. Qed.

Lemma run_consistent es :
  forall c c', consistent c -> run es c = Next c' -> consistent c'.
Proof.
  induction es as [|e es IH]; intros c c' Hc; cbn.
  - intros [= <-]. exact Hc.
  - destruct (step e c) as [c1| | |] eqn:E; try discriminate.
    apply IH. exact (step_consistent _ _ _ Hc E).
Qed.

Lemma reachable_consistent c : reachable c -> consistent c.
Proof. intros [es H]. exact (run_consistent es _ _ consistent_mount H). Qed.

Lemma reachable_run c es c' : reachable c -> run es c = Next c' -> reachable c'.
Proof.
  intros [es0 H0] H. exists (es0 ++ es). rewrite run_app, H0. exact H.
Qed.

(** A transition only ever extends the message list, by at most one
    message. *)
Lemma transition_extends c e c' :
  transition c e c' ->
  exists new, messages (hooks c') = messages (hooks c) ++ new
              /\ (length new <= 1)%nat.
Proof.
  intros T. destruct T; cbn [hooks messages idle];
    try (exists []; rewrite app_nil_r; cbn; auto; fail);
    eexists [_]; cbn; auto.
Qed.

Lemma run_extends es :
  forall c c', consistent c -> run es c = Next c' ->
  exists new, messages (hooks c') = messages (hooks c) ++ new.
Proof.
  induction es as [|e es IH]; intros c c' Hc; cbn.
  - intros [= <-]. exists []. rewrite app_nil_r. reflexivity.
  - destruct (step e c) as [c1| | |] eqn:E; try discriminate.
    intros H. pose proof (step_transition _ _ _ Hc E) as T.
    destruct (transition_extends _ _ _ T) as (new1 & E1 & _).
    destruct (IH _ _ (transition_consistent _ _ _ Hc T) H) as (new2 & E2).
    exists (new1 ++ new2). rewrite E2, E1, app_assoc. reflexivity.
Qed.

(** The settlement steps and the ignored submits leave the draft alone; an
    accepted submit empties it; typing replaces it. *)
Lemma transition_draft c e c' :
  transition c e c' ->
  input (hooks c') =
  match e with
  | Change v => v
  | Submit =>
      if negb (to_boolean (trim (input (hooks c)))) || loading (hooks c)
      then input (hooks c) else []
  | FetchSettles _ _ | JsonSettles _ => input (hooks c)
  end.
Proof.
  intros T. destruct T as [c v|c G|msgs draft G| | |]; cbn [hooks input loading idle];
    try reflexivity.
  - rewrite G. reflexivity.
  - rewrite G. reflexivity.
Qed.

(** [sendMessage]'s promise never rejects. *)
Lemma step_handled c e : consistent c -> step e c = Unhandled -> False.
Proof.
  intros Hc H. destruct e as [v| |i r|i].
  - rewrite step_change in H. discriminate H.
  - destruct (submit_cases c) as [[_ E]|(_ & _ & E)]; congruence.
  - destruct Hc; destruct i as [|[|i]]; try discriminate H.
    destruct r; [rewrite step_fetch_fulfilled in H|rewrite step_fetch_rejected in H];
      discriminate H.
  - destruct Hc as [msgs draft|msgs draft userText|msgs draft res];
      destruct i as [|[|i]]; try discriminate H.
    rewrite step_json in H.
    destruct (bot_text (Fulfilled res)) as [t|]; [|discriminate H].
    destruct (value_renderable t); discriminate H.
Qed.

End Invariant.

(* ===================================================================== *)
(** ** Properties: the guard and the start of a submission *)
(* ===================================================================== *)

(** C3.  When the draft is empty after trimming (it is empty or holds only
    white space), or [loading] is true, [sendMessage] returns at once without
    calling a setter: the submit leaves [messages], [input], [loading] and
    the parked calls as they were, and nothing is thrown. *)
Theorem submit_ignored_when_blank_or_busy (c : chat) :
  trim (input (hooks c)) = []
  \/ forallb is_white_space (input (hooks c)) = true
  \/ loading (hooks c) = true ->
  sendMessage (input (hooks c)) (loading (hooks c)) = Ret tt
  /\ step Submit c = Next c.
Proof.
  intros H.
  assert (G : negb (to_boolean (trim (input (hooks c)))) || loading (hooks c) = true).
  { destruct H as [H|[H|H]].
    - rewrite H. reflexivity.
    - rewrite to_boolean_trim, H. reflexivity.
    - rewrite H. apply orb_true_r. }
  split.
  - unfold sendMessage. rewrite G. reflexivity.
  - apply step_submit_ignored, G.
Qed.

Lemma submit_ignored_when_blank_or_busy_witness :
  sendMessage (js "  ") false = Ret tt
  /\ step Submit (idle (State [] (js "  ") false))
     = Next (idle (State [] (js "  ") false)).
Proof.
  apply (submit_ignored_when_blank_or_busy (idle (State [] (js "  ") false))).
  right; left. reflexivity.
Defined.

(** C4.  A submit with a draft that is not blank, while [loading] is false,
    calls the setters in this order before it suspends: [setMessages] with
    the updater that appends the user message holding the draft as typed,
    [setInput("")], [setLoading(true)]; it then suspends on the [fetch] of
    [API_URL] whose body serialises the object with the single property
    [message], the submitted text.  When the handler returns the three
    updates are in the state and the call is parked, unsettled. *)
Theorem submit_effects_in_order (s : state) :
  to_boolean (trim (input s)) = true ->
  loading s = false ->
  sync_effects (sendMessage (input s) (loading s))
    = [SetMessages (append_user (input s)); SetInput []; SetLoading true]
  /\ (forall prev,
        append_user (input s) prev = Some (prev ++ [user_message (input s)]))
  /\ (exists k, sync_rest (sendMessage (input s) (loading s))
                = AwaitFetch API_URL (post (input s)) k)
  /\ body (post (input s))
     = JSON_stringify (JObj {[ js "message" := JStr (input s) ]})
  /\ (forall parked,
        step Submit {| hooks := s; inflight := parked |}
        = Next {| hooks := State (messages s ++ [user_message (input s)]) [] true;
                  inflight := parked ++ [exchange (input s)] |}).
Proof.
  intros Hd Hl. unfold sendMessage. rewrite Hd, Hl. cbn [negb orb].
  repeat split.
  - eexists. reflexivity.
  - intros parked.
    rewrite (step_submit_accepted {| hooks := s; inflight := parked |}) by assumption.
    reflexivity.
Qed.

Lemma submit_effects_in_order_witness :
  sync_effects (sendMessage (js "Hello") false)
    = [SetMessages (append_user (js "Hello")); SetInput []; SetLoading true]
  /\ (forall prev,
        append_user (js "Hello") prev = Some (prev ++ [user_message (js "Hello")]))
  /\ (exists k, sync_rest (sendMessage (js "Hello") false)
                = AwaitFetch API_URL (post (js "Hello")) k)
  /\ body (post (js "Hello"))
     = JSON_stringify (JObj {[ js "message" := JStr (js "Hello") ]})
  /\ (forall parked,
        step Submit {| hooks := hello; inflight := parked |}
        = Next {| hooks := State ([] ++ [user_message (js "Hello")]) [] true;
                  inflight := parked ++ [exchange (js "Hello")] |}).
Proof.
  apply (submit_effects_in_order hello); reflexivity.
Defined.

(** C7.  In every reachable configuration at most one call of [sendMessage]
    is parked; one is parked exactly when [loading] is true, and then a
    submit changes nothing.  Submitting ["A"], typing ["B"] and submitting
    again before the first settles leaves one request, for ["A"], and the
    draft ["B"]; once the first has settled, ["B"] can be submitted. *)
Theorem one_submission_at_a_time :
  (forall c, reachable c ->
     (length (inflight c) <= 1)%nat
     /\ (loading (hooks c) = true <-> inflight c <> [])
     /\ (loading (hooks c) = true -> step Submit c = Next c))
  /\ run [Change (js "A"); Submit; Change (js "B"); Submit] mount = Next A_is_out
  /\ (exists k, inflight A_is_out = [AwaitFetch API_URL (post (js "A")) k])
  /\ run [FetchSettles 0 Rejected; Submit] A_is_out
     = Next {| hooks := State [user_message (js "A"); fallback_message;
                               user_message (js "B")] [] true;
               inflight := [exchange (js "B")] |}.
Proof.
  split; [|split; [reflexivity|split; [eexists; reflexivity|reflexivity]]].
  intros c Hc. apply reachable_consistent in Hc.
  destruct Hc; cbn [hooks inflight loading length]; repeat split;
    try lia; try discriminate; try congruence; intros _;
    apply step_submit_ignored, orb_true_r.
Qed.

Lemma one_submission_at_a_time_witness :
  (length (inflight A_is_out) <= 1)%nat
  /\ (loading (hooks A_is_out) = true <-> inflight A_is_out <> [])
  /\ (loading (hooks A_is_out) = true -> step Submit A_is_out = Next A_is_out).
Proof.
  apply (proj1 one_submission_at_a_time A_is_out).
  exists [Change (js "A"); Submit; Change (js "B")]. reflexivity.
Defined.

(* ===================================================================== *)
(** ** Properties: the message list and the draft *)
(* ===================================================================== *)

(** C9.  From a reachable configuration, whatever happens next, the message
    list only grows at its end: the list afterwards is the list before
    followed by new entries, so every message stays at its index, as it
    was. *)
Theorem messages_append_only (c : chat) (es : list event) (c' : chat) :
  reachable c ->
  run es c = Next c' ->
  (exists new, messages (hooks c') = messages (hooks c) ++ new)
  /\ (forall (i : nat) (m : message),
        messages (hooks c) !! i = Some m -> messages (hooks c') !! i = Some m).
Proof.
  intros Hc H.
  destruct (run_extends es c c' (reachable_consistent c Hc) H) as [new E].
  split.
  - exists new. exact E.
  - intros i m Hm. rewrite E. apply lookup_app_l_Some, Hm.
Qed.

Lemma messages_append_only_witness :
  (exists new,
      messages (hooks (idle (State [user_message (js "A"); fallback_message]
                                   (js "B") false)))
      = messages (hooks A_is_out) ++ new)
  /\ (forall (i : nat) (m : message),
        messages (hooks A_is_out) !! i = Some m ->
        messages (hooks (idle (State [user_message (js "A"); fallback_message]
                                     (js "B") false))) !! i = Some m).
Proof.
  apply (messages_append_only A_is_out [Submit; FetchSettles 0 Rejected]).
  - exists [Change (js "A"); Submit; Change (js "B")]. reflexivity.
  - reflexivity.
Defined.

(** C8 (the failing input).  The user submits ["Hello"] and types ["B"]
    while the request is out; the body then settles to [null], or to an
    object [reply].  The settlement steps of [sendMessage] call no
    [setInput], yet the draft does not survive the settlement: the component
    is unmounted, and its state with it. *)
Theorem draft_is_lost_with_the_component :
  run [Submit; Change (js "B"); FetchSettles 0 (Fulfilled null_body)] (idle hello)
  = Next {| hooks := State [user_message (js "Hello")] (js "B") true;
            inflight := [reading null_body] |}
  /\ run [Submit; Change (js "B"); FetchSettles 0 (Fulfilled null_body);
          JsonSettles 0] (idle hello)
     = Crash
  /\ run [Submit; Change (js "B"); FetchSettles 0 (Fulfilled object_reply);
          JsonSettles 0] (idle hello)
     = Crash.
Proof. split; [reflexivity|]. split; reflexivity. Qed.

(* ===================================================================== *)
(** ** Properties: how a submission settles *)
(* ===================================================================== *)


(** C6.  When the fetch rejects (the service cannot be reached) or the body
    cannot be decoded, the submission appends the user message and one bot
    message with the fixed text ["Server not reachable 😕"], sets [loading]
    back to false, and [sendMessage]'s promise does not reject.  With draft
    ["Hello"] and an unreachable service the messages end as the user's
    ["Hello"] and the fallback. *)
Theorem failure_appends_fallback :
  (forall s es1 r es2,
     to_boolean (trim (input s)) = true ->
     loading s = false ->
     forallb user_event es1 = true ->
     forallb user_event es2 = true ->
     r = Rejected \/ (exists res, r = Fulfilled res /\ parsed res = None) ->
     run (round_trip es1 r es2) (idle s)
     = Next (idle (State (messages s ++ [user_message (input s); fallback_message])
                         (typed (meanwhile es1 r es2) []) false)))
  /\ run [Submit; FetchSettles 0 Rejected] (idle hello)
     = Next (idle (State [user_message (js "Hello");
                          bot_message (Of (JStr (js "Server not reachable "
                                                 ++ [0xD83D; 0xDE15])))]
                         [] false))
  /\ (forall c e, reachable c -> step e c <> Unhandled).
Proof.
  split; [|split; [reflexivity|]].
  - intros s es1 r es2 Hd Hl H1 H2 Hr.
    rewrite round_trip_run by assumption.
    destruct Hr as [->|(res & -> & Hres)]; cbn [bot_text]; [reflexivity|].
    rewrite Hres. reflexivity.
  - intros c e Hc H. exact (step_handled c e (reachable_consistent c Hc) H).
Qed.

Lemma failure_appends_fallback_witness :
  run (round_trip [] (Fulfilled {| status := 200; parsed := None |}) [])
      (idle hello)
  = Next (idle (State ([] ++ [user_message (js "Hello"); fallback_message])
                      (typed ([] ++ []) []) false)).
Proof.
  apply (proj1 failure_appends_fallback hello []
           (Fulfilled {| status := 200; parsed := None |}) []);
    try reflexivity.
  right. eexists. split; reflexivity.
Defined.

(** C2 (counterexample).  The service answers with status 500 and the JSON
    body [{"detail": "Internal Server Error"}]: the bot message appended is
    not the fallback, its text is [undefined]. *)
Lemma http_error_status_is_not_a_failure :
  status server_error = 500
  /\ run [Submit; FetchSettles 0 (Fulfilled server_error); JsonSettles 0] (idle hello)
     = Next (idle (State [user_message (js "Hello"); bot_message undefined] [] false))
  /\ bot_message undefined <> fallback_message.
Proof.
  split; [reflexivity|]. split; [reflexivity|]. discriminate.
Qed.

(** C2 (amended).  A body that cannot be decoded, under any HTTP status, and
    a connection failure end the submission the same way: the bot message
    appended is the fallback, and the two final states are equal.  The
    status is never read: two responses that differ only in their status
    are handled alike. *)
Theorem failures_uniform_and_status_ignored (s : state) (es1 es2 : list event) :
  to_boolean (trim (input s)) = true ->
  loading s = false ->
  forallb user_event es1 = true ->
  forallb user_event es2 = true ->
  run (round_trip es1 Rejected es2) (idle s)
  = Next (idle (State (messages s ++ [user_message (input s); fallback_message])
                      (typed es1 []) false))
  /\ (forall code,
        run (round_trip es1 (Fulfilled {| status := code; parsed := None |}) es2)
            (idle s)
        = Next (idle (State (messages s ++ [user_message (input s); fallback_message])
                            (typed (es1 ++ es2) []) false)))
  /\ (forall code,
        run (round_trip es1 (Fulfilled {| status := code; parsed := None |}) [])
            (idle s)
        = run (round_trip es1 Rejected es2) (idle s))
  /\ (forall code code' body,
        run (round_trip es1 (Fulfilled {| status := code; parsed := body |}) es2)
            (idle s)
        = run (round_trip es1 (Fulfilled {| status := code'; parsed := body |}) es2)
              (idle s)).
Proof.
  intros Hd Hl H1 H2.
  assert (H0 : forallb user_event [] = true) by reflexivity.
  repeat split; intros; rewrite !round_trip_run by assumption;
    cbn [bot_text parsed meanwhile]; rewrite ?app_nil_r; reflexivity.
Qed.

Lemma failures_uniform_and_status_ignored_witness :
  run (round_trip [] Rejected []) (idle hello)
  = Next (idle (State (messages hello ++ [user_message (input hello); fallback_message])
                      (typed [] []) false))
  /\ (forall code,
        run (round_trip [] (Fulfilled {| status := code; parsed := None |}) [])
            (idle hello)
        = Next (idle (State (messages hello
                             ++ [user_message (input hello); fallback_message])
                            (typed ([] ++ []) []) false)))
  /\ (forall code,
        run (round_trip [] (Fulfilled {| status := code; parsed := None |}) [])
            (idle hello)
        = run (round_trip [] Rejected []) (idle hello))
  /\ (forall code code' body,
        run (round_trip [] (Fulfilled {| status := code; parsed := body |}) [])
            (idle hello)
        = run (round_trip [] (Fulfilled {| status := code'; parsed := body |}) [])
              (idle hello)).
Proof.
  apply (failures_uniform_and_status_ignored hello [] []); reflexivity.
Defined.

(** C10 (the failing input).  The body [null] parses as JSON, yet no bot
    message with the value of a [reply] field is appended: reading
    [data.reply] throws inside the updater. *)
Lemma null_body_has_no_reply_field :
  parsed null_body = Some JNull
  /\ get_reply JNull = None
  /\ run [Submit; FetchSettles 0 (Fulfilled null_body); JsonSettles 0] (idle hello)
     = Crash.
Proof. repeat split. Qed.

(** C1 (the failing input).  The service answers with the JSON body [null].
    The updater queued by [setMessages] throws when React calls it, outside
    the [try] of [sendMessage]: no bot message is appended, fallback or
    other, and the component does not survive the update. *)
Theorem null_body_unmounts :
  (forall prev, append_reply JNull prev = None)
  /\ (exists s, run [Submit; FetchSettles 0 (Fulfilled null_body)] (idle hello)
                = Next {| hooks := s; inflight := [reading null_body] |})
  /\ run [Submit; FetchSettles 0 (Fulfilled null_body); JsonSettles 0] (idle hello)
     = Crash.
Proof.
  split; [reflexivity|]. split; [eexists|]; reflexivity.
Qed.

(** X1.  Every settlement whose bot text React can render appends exactly
    one bot message after the user's and sets [loading] back to false: a
    rejected fetch, a body that cannot be decoded, and a body that parses to
    a value other than [null] whose [reply], when there is one, is not an
    object and holds none. *)
Theorem settlement_appends_one_bot_message
    (s : state) (es1 : list event) (r : settled response) (es2 : list event) :
  to_boolean (trim (input s)) = true ->
  loading s = false ->
  forallb user_event es1 = true ->
  forallb user_event es2 = true ->
  (forall res data,
      r = Fulfilled res -> parsed res = Some data ->
      data <> JNull /\ value_renderable (reply_field data) = true) ->
  exists t,
    bot_text r = Some t
    /\ role (bot_message t) = bot
    /\ run (round_trip es1 r es2) (idle s)
       = Next (idle (State (messages s ++ [user_message (input s); bot_message t])
                           (typed (meanwhile es1 r es2) []) false)).
Proof.
  intros Hd Hl H1 H2 Hr.
  destruct (bot_text_drawn r Hr) as (t & Ht & Hdrawn).
  exists t. rewrite round_trip_run by assumption. rewrite Ht, Hdrawn. auto.
Qed.

Lemma settlement_appends_one_bot_message_witness :
  exists t,
    bot_text (Fulfilled hi_there) = Some t
    /\ role (bot_message t) = bot
    /\ run (round_trip [] (Fulfilled hi_there) []) (idle hello)
       = Next (idle (State (messages hello ++ [user_message (input hello); bot_message t])
                           (typed (meanwhile [] (Fulfilled hi_there) []) []) false)).
Proof.
  apply (settlement_appends_one_bot_message hello [] (Fulfilled hi_there) []);
    try reflexivity.
  intros res data [= <-] [= <-]. split; [discriminate|reflexivity].
Defined.

(* ===================================================================== *)
(** ** The view and its handlers *)
(* ===================================================================== *)

Section View.

Implicit Types (c : chat) (s : state) (msgs : list message).

Lemma mapped_app msgs more :
  mapped (msgs ++ more)
  = mapped msgs
    ++ imap (fun i m => (length msgs + i, Message_component (role m) (text m) false))%nat
            more.
Proof. unfold mapped. rewrite imap_app. reflexivity. Qed.

Lemma mapped_keys msgs : map fst (mapped msgs) = seq 0 (length msgs).
Proof.
  unfold mapped. change (map fst) with (fmap (M := list) (@fst nat vnode)).
  rewrite fmap_imap.
  rewrite (imap_ext _ (fun j _ => id j)) by reflexivity.
  rewrite imap_seq_0, list_fmap_id. reflexivity.
Qed.

(** The elements of any keyed list of bubbles, whatever the keys. *)
Lemma bubbles_shown (g : nat -> nat) msgs :
  flat_map (fun p => shown (snd p))
           (imap (fun i m => (g i, Message_component (role m) (text m) false)) msgs)
  = map (fun m => Message_component (role m) (text m) false) msgs.
Proof.
  revert g. induction msgs as [|m msgs IH]; intros g; [reflexivity|].
  rewrite imap_cons. cbn [flat_map snd shown Message_component app map].
  f_equal. exact (IH (g ∘ S)).
Qed.

(** A bubble holds no text area and no button. *)
Lemma bubbles_hold_no_control {X : Type} (f : vnode -> option X)
    (g : nat -> nat) msgs :
  (forall cn ch, f (VDiv cn ch) = None) ->
  (forall v, f (VExpr v) = None) ->
  omap f (flat_map (fun p => nodes (snd p))
            (imap (fun i m => (g i, Message_component (role m) (text m) false)) msgs))
  = [].
Proof.
  intros Hdiv Hexpr. revert g.
  induction msgs as [|m msgs IH]; intros g; [reflexivity|].
  rewrite imap_cons.
  cbn [flat_map snd nodes Message_component app omap list_omap].
  rewrite !Hdiv, Hexpr. exact (IH (g ∘ S)).
Qed.

Lemma body_holds_no_control {X : Type} (f : vnode -> option X) s :
  (forall cn ch, f (VDiv cn ch) = None) ->
  (forall v, f (VExpr v) = None) ->
  f VFalse = None -> f VAnchor = None -> (forall items, f (VArray items) = None) ->
  omap f (flat_map nodes (body_children s)) = [].
Proof.
  intros Hdiv Hexpr Hfalse Hanchor Harray. unfold body_children.
  cbn [flat_map]. rewrite !omap_app.
  cbn [nodes]. cbn [omap list_omap]. rewrite Harray.
  unfold mapped. rewrite (bubbles_hold_no_control f id) by assumption.
  destruct (loading s); cbn; rewrite ?Hdiv, ?Hexpr, ?Hfalse, ?Hanchor; reflexivity.
Qed.

Lemma the_textarea_Chat s :
  the_textarea (Chat s)
  = Some (handle_change, handle_key_down (input s) (loading s)).
Proof.
  unfold the_textarea, Chat. cbn [nodes flat_map].
  rewrite app_nil_r.
  cbn [omap list_omap textarea_of app]. rewrite !omap_app.
  rewrite (body_holds_no_control textarea_of) by reflexivity.
  reflexivity.
Qed.

Lemma the_button_Chat s :
  the_button (Chat s) = Some (sendMessage (input s) (loading s), loading s).
Proof.
  unfold the_button, Chat. cbn [nodes flat_map].
  rewrite app_nil_r.
  cbn [omap list_omap button_of app]. rewrite !omap_app.
  rewrite (body_holds_no_control button_of) by reflexivity.
  reflexivity.
Qed.

Lemma continue_returned c s' :
  Next {| hooks := s'; inflight := inflight c ++ [] |}
  = Next {| hooks := s'; inflight := inflight c |}.
Proof. rewrite app_nil_r. reflexivity. Qed.

(** Each DOM event, through the handler the render attached. *)
Lemma dispatch_spec d c :
  dispatch d c =
  match d with
  | KeyDown e =>
      if bool_decide (key e = js "Enter") && negb (shiftKey e)
      then (true, step Submit c) else (false, Next c)
  | Click => (false, if loading (hooks c) then Stuck else step Submit c)
  | InputChange v => (false, step (Change v) c)
  end.
Proof.
  unfold dispatch. rewrite the_textarea_Chat, the_button_Chat.
  destruct d as [e| |v].
  - unfold handle_key_down.
    destruct (bool_decide (key e = js "Enter") && negb (shiftKey e)); cbn [fst snd].
    + reflexivity.
    + unfold continue. cbn [drive].
      rewrite renders_same, app_nil_r by reflexivity. destruct c; reflexivity.
  - destruct (loading (hooks c)) eqn:L; [reflexivity|].
    unfold step. rewrite L. reflexivity.
  - rewrite step_change. unfold handle_change, continue.
    cbn [setInput drive apply_effect mbind option_bind].
    rewrite renders_same, app_nil_r by reflexivity. reflexivity.
Qed.

End View.

(* ===================================================================== *)
(** ** The shape of the conversation *)
(* ===================================================================== *)

Section Dialogue.

Implicit Types (c : chat) (e : event) (es : list event).

Lemma coherent_consistent c : coherent c -> consistent c.
Proof. intros H. destruct H; constructor. Qed.

Lemma coherent_mount : coherent mount.
Proof. apply co_rest, no_exchange. Qed.

Lemma exchanges_snoc done userText t :
  exchanges done -> to_boolean (trim userText) = true ->
  exchanges ((done ++ [user_message userText]) ++ [bot_message t]).
Proof. intros. rewrite <- app_assoc. apply one_more; assumption. Qed.

Lemma transition_coherent c e c' :
  coherent c -> transition c e c' -> coherent c'.
Proof.
  intros Hc T. destruct T as [c v|c G|msgs draft G|s u res|s u|s res t Ht].
  - destruct Hc; constructor; assumption.
  - exact Hc.
  - inversion Hc; subst. apply co_fetching; assumption.
  - inversion Hc; subst; apply co_reading; assumption.
  - inversion Hc; subst; apply co_rest, exchanges_snoc; assumption.
  - inversion Hc; subst; apply co_rest, exchanges_snoc; assumption.
Qed.

Lemma run_coherent es :
  forall c c', coherent c -> run es c = Next c' -> coherent c'.
Proof.
  induction es as [|e es IH]; intros c c' Hc; cbn.
  - intros [= <-]. exact Hc.
  - destruct (step e c) as [c1| | |] eqn:E; try discriminate.
    apply IH.
    exact (transition_coherent _ _ _ Hc
             (step_transition _ _ _ (coherent_consistent _ Hc) E)).
Qed.

Lemma reachable_coherent c : reachable c -> coherent c.
Proof. intros [es H]. exact (run_coherent es _ _ coherent_mount H). Qed.

(** In a list of exchanges the even places are the user's, the odd ones
    the bot's, and the length is even. *)
Lemma exchanges_even l : exchanges l -> Nat.even (length l) = true.
Proof.
  induction 1 as [|done u t _ IH _]; [reflexivity|].
  rewrite length_app, Nat.even_add, IH. reflexivity.
Qed.

Lemma exchanges_roles l :
  exchanges l ->
  forall (i : nat) m, l !! i = Some m -> role m = if Nat.even i then user else bot.
Proof.
  induction 1 as [|done u t Hd IH _]; intros i m Hm; [discriminate|].
  apply lookup_app_Some in Hm as [Hm|[Hi Hm]]; [exact (IH i m Hm)|].
  pose proof (exchanges_even done Hd) as He.
  replace i with (length done + (i - length done))%nat by lia.
  rewrite Nat.even_add, He.
  destruct (i - length done)%nat as [|[|j]]; cbn in Hm.
  - injection Hm as <-. reflexivity.
  - injection Hm as <-. reflexivity.
  - discriminate.
Qed.

Lemma exchanges_user_texts l :
  exchanges l ->
  forall m, In m l -> role m = user ->
  exists userText, m = user_message userText /\ to_boolean (trim userText) = true.
Proof.
  induction 1 as [|done u t _ IH Hu]; intros m Hm Hr; [destruct Hm|].
  apply in_app_or in Hm as [Hm|[<-|[<-|[]]]].
  - exact (IH m Hm Hr).
  - exists u. auto.
  - discriminate.
Qed.

(** The same, with the message of the submission that is out at the end. *)
Lemma pending_roles done userText :
  exchanges done ->
  forall (i : nat) m,
    (done ++ [user_message userText]) !! i = Some m ->
    role m = if Nat.even i then user else bot.
Proof.
  intros Hd i m Hm. apply lookup_app_Some in Hm as [Hm|[Hi Hm]].
  - exact (exchanges_roles done Hd i m Hm).
  - replace i with (length done + (i - length done))%nat by lia.
    rewrite Nat.even_add, (exchanges_even done Hd).
    destruct (i - length done)%nat as [|j]; [|discriminate].
    injection Hm as <-. reflexivity.
Qed.

Lemma pending_user_texts done userText :
  exchanges done -> to_boolean (trim userText) = true ->
  forall m, In m (done ++ [user_message userText]) -> role m = user ->
  exists u, m = user_message u /\ to_boolean (trim u) = true.
Proof.
  intros Hd Hu m Hm Hr. apply in_app_or in Hm as [Hm|[<-|[]]].
  - exact (exchanges_user_texts done Hd m Hm Hr).
  - eauto.
Qed.

End Dialogue.

(* ===================================================================== *)
(** ** The page and the state machine *)
(* ===================================================================== *)

Section Page.

Implicit Types (c : chat) (e : event) (d : dom_event) (u : ui_event).

Lemma submit_is_next c : exists c', step Submit c = Next c'.
Proof.
  destruct (submit_cases c) as [[_ E]|(_ & _ & E)]; rewrite E; eexists; reflexivity.
Qed.

Lemma ui_step_realise e c : ui_step (realise e) c = step e c.
Proof.
  destruct e as [v| |i r|i]; cbn [realise ui_step]; try reflexivity;
    rewrite dispatch_spec; reflexivity.
Qed.

(** A step of the page is a step of the state machine, or none. *)
Lemma ui_step_run u c c' :
  ui_step u c = Next c' ->
  exists es, run es c = Next c' /\ (length es <= 1)%nat.
Proof.
  destruct u as [d|i r|i]; cbn [ui_step].
  - rewrite dispatch_spec. destruct d as [k| |v]; cbn [snd].
    + destruct (bool_decide (key k = js "Enter") && negb (shiftKey k)); cbn [snd].
      * intros E. exists [Submit]. cbn [run]. rewrite E. auto.
      * intros [= <-]. exists []. auto.
    + destruct (loading (hooks c)); [discriminate|].
      intros E. exists [Submit]. cbn [run]. rewrite E. auto.
    + intros E. exists [Change v]. cbn [run]. rewrite E. auto.
  - intros E. exists [FetchSettles i r]. cbn [run]. rewrite E. auto.
  - intros E. exists [JsonSettles i]. cbn [run]. rewrite E. auto.
Qed.

Lemma ui_run_run us :
  forall c c', ui_run us c = Next c' ->
  exists es, run es c = Next c' /\ (length es <= length us)%nat.
Proof.
  induction us as [|u us IH]; intros c c'; cbn [ui_run].
  - intros [= <-]. exists []. auto.
  - destruct (ui_step u c) as [c1| | |] eqn:E; try discriminate.
    intros H. destruct (ui_step_run _ _ _ E) as (es1 & R1 & L1).
    destruct (IH _ _ H) as (es2 & R2 & L2).
    exists (es1 ++ es2). rewrite run_app, R1, length_app. cbn [length]. split; [exact R2|lia].
Qed.

Lemma ui_run_realise es : forall c, ui_run (map realise es) c = run es c.
Proof.
  induction es as [|e es IH]; intros c; [reflexivity|].
  cbn [map ui_run run]. rewrite ui_step_realise.
  destruct (step e c); auto.
Qed.

End Page.

(** X2.  In any configuration, Enter without Shift in the text area is
    consumed ([preventDefault]) and calls [sendMessage]; every other key, and
    Enter with Shift, is left to the browser and changes nothing.  Enter is
    consumed also when the submit is ignored because the draft is blank or a
    request is out. *)
Theorem enter_submits_other_keys_pass (c : chat) (e : key_event) :
  dispatch (KeyDown e) c
  = (if bool_decide (key e = js "Enter") && negb (shiftKey e)
     then (true, step Submit c) else (false, Next c))
  /\ (key e = js "Enter" -> shiftKey e = false ->
      forallb is_white_space (input (hooks c)) = true \/ loading (hooks c) = true ->
      dispatch (KeyDown e) c = (true, Next c))
  /\ (key e <> js "Enter" \/ shiftKey e = true ->
      dispatch (KeyDown e) c = (false, Next c)).
Proof.
  rewrite dispatch_spec. split; [reflexivity|]. split.
  - intros Hk Hs G. rewrite bool_decide_eq_true_2, Hs by exact Hk. cbn [negb andb].
    rewrite step_submit_ignored; [reflexivity|].
    destruct G as [G|G].
    + rewrite to_boolean_trim, G. reflexivity.
    + rewrite G. apply orb_true_r.
  - intros [Hk|Hs].
    + rewrite bool_decide_eq_false_2 by exact Hk. reflexivity.
    + rewrite Hs, andb_false_r. reflexivity.
Qed.

Lemma enter_submits_other_keys_pass_witness :
  dispatch (KeyDown enter_key) A_is_out = (true, Next A_is_out).
Proof.
  apply (proj1 (proj2 (enter_submits_other_keys_pass A_is_out enter_key)));
    first [reflexivity | right; reflexivity].
Defined.

(** X3.  A click reaches [sendMessage] only while [loading] is false: the
    button is disabled otherwise.  In a reachable configuration the click is
    impossible exactly while a request is out, so a click that happens is
    never turned away by the [loading] half of the guard. *)
Theorem click_only_when_enabled (c : chat) :
  dispatch Click c = (false, if loading (hooks c) then Stuck else step Submit c)
  /\ (reachable c -> (snd (dispatch Click c) = Stuck <-> inflight c <> [])).
Proof.
  rewrite dispatch_spec. split; [reflexivity|].
  intros Hc. apply reachable_consistent in Hc. cbn [snd].
  destruct Hc as [msgs draft|msgs draft userText|msgs draft res]; cbn [hooks loading inflight].
  - destruct (submit_is_next {| hooks := State msgs draft false; inflight := [] |})
      as [c' E].
    rewrite E. split; [discriminate|congruence].
  - split; [discriminate|reflexivity].
  - split; [discriminate|reflexivity].
Qed.

Lemma click_only_when_enabled_witness :
  snd (dispatch Click A_is_out) = Stuck <-> inflight A_is_out <> [].
Proof.
  apply (proj2 (click_only_when_enabled A_is_out)).
  exists [Change (js "A"); Submit; Change (js "B")]. reflexivity.
Defined.

(** X4.  The handlers of the JSX realise the state machine and nothing
    more: a run of state-machine events is the same run of the page (typing
    for [Change], the Enter key for [Submit]), and whatever the page does
    (keys, clicks, typing and settlements) is a run of the state machine, no
    longer than the page's.  So the configurations the page can reach are the
    reachable ones. *)
Theorem page_refines_state_machine :
  (forall es c, ui_run (map realise es) c = run es c)
  /\ (forall us c c',
        ui_run us c = Next c' ->
        exists es, run es c = Next c' /\ (length es <= length us)%nat)
  /\ (forall c, (exists us, ui_run us mount = Next c) <-> reachable c).
Proof.
  split; [exact ui_run_realise|]. split; [exact ui_run_run|].
  intros c. split.
  - intros [us H]. destruct (ui_run_run us _ _ H) as (es & R & _). exists es. exact R.
  - intros [es H]. exists (map realise es). rewrite ui_run_realise. exact H.
Qed.

Lemma page_refines_state_machine_witness :
  exists es,
    run es mount = Next A_is_out
    /\ (length es
        <= length [User (InputChange (js "A")); User Click;
                   User (InputChange (js "B"));
                   User (KeyDown {| key := js "a"; shiftKey := false |})])%nat.
Proof.
  apply (proj1 (proj2 page_refines_state_machine)
           [User (InputChange (js "A")); User Click;
            User (InputChange (js "B"));
            User (KeyDown {| key := js "a"; shiftKey := false |})] mount A_is_out).
  reflexivity.
Defined.

(* ===================================================================== *)
(** ** What the body displays *)
(* ===================================================================== *)

Section Display.

Implicit Types (c : chat) (s : state) (msgs : list message).

Lemma bubbles_expressions (g : nat -> nat) msgs :
  omap expression_of
    (flat_map (fun p => nodes (snd p))
       (imap (fun i m => (g i, Message_component (role m) (text m) false)) msgs))
  = map text msgs.
Proof.
  revert g. induction msgs as [|m msgs IH]; intros g; [reflexivity|].
  rewrite imap_cons.
  cbn [flat_map snd nodes Message_component app omap list_omap expression_of map].
  f_equal. exact (IH (g ∘ S)).
Qed.

Lemma bubbles_classes (g : nat -> nat) msgs :
  omap class_of
    (flat_map (fun p => nodes (snd p))
       (imap (fun i m => (g i, Message_component (role m) (text m) false)) msgs))
  = flat_map (fun m => [js "message-row " ++ role_name (role m); js "message-bubble "])
             msgs.
Proof.
  revert g. induction msgs as [|m msgs IH]; intros g; [reflexivity|].
  rewrite imap_cons.
  cbn [flat_map snd nodes Message_component app omap list_omap class_of].
  do 2 f_equal. exact (IH (g ∘ S)).
Qed.

Lemma body_shown s :
  flat_map shown (body_children s)
  = map (fun m => Message_component (role m) (text m) false) (messages s)
    ++ (if loading s then [typing_indicator] else []) ++ [VAnchor].
Proof.
  unfold body_children. cbn [flat_map shown]. unfold mapped.
  rewrite (bubbles_shown id). destruct (loading s); reflexivity.
Qed.

Lemma indicator_is_no_message msgs :
  ~ In typing_indicator
       (map (fun m => Message_component (role m) (text m) false) msgs).
Proof.
  intros H. apply in_map_iff in H as (m & E & _).
  unfold typing_indicator, Message_component in E.
  cbv in E. discriminate E.
Qed.

End Display.

(** X5.  What the body of the chat shows, as React lays it out: one bubble
    per message, in the order of [messages] and keyed by position, then the
    typing indicator when [loading] is true and only then, then the scroll
    anchor. *)
Theorem body_shows_messages_in_order (s : state) :
  flat_map shown (body_children s)
  = map (fun m => Message_component (role m) (text m) false) (messages s)
    ++ (if loading s then [typing_indicator] else []) ++ [VAnchor]
  /\ flat_map keys (body_children s) = seq 0 (length (messages s))
  /\ length (flat_map shown (body_children s))
     = (length (messages s) + (if loading s then 1 else 0) + 1)%nat.
Proof.
  split; [apply body_shown|]. split.
  - unfold body_children. cbn [flat_map keys]. rewrite mapped_keys.
    destruct (loading s); cbn [keys typing_indicator Message_component];
      rewrite !app_nil_r; reflexivity.
  - rewrite body_shown, !length_app, length_map.
    destruct (loading s); cbn [length]; lia.
Qed.

(** X6.  What the body lets the user read: the expression children of its
    bubbles are the texts of the messages, unchanged and in order, followed
    by ["Typing…"] while [loading] is true; each message sits in a row
    classed by its role, and the indicator's bubble is the only one whose
    class has [typing]. *)
Theorem body_texts_and_classes (s : state) :
  expressions (VDiv (js "chat-body") (body_children s))
  = map text (messages s)
    ++ (if loading s then [Of (JStr typing_text)] else [])
  /\ class_names (VDiv (js "chat-body") (body_children s))
     = js "chat-body"
       :: flat_map (fun m => [js "message-row " ++ role_name (role m);
                              js "message-bubble "]) (messages s)
       ++ (if loading s
           then [js "message-row bot"; js "message-bubble typing"] else []).
Proof.
  unfold expressions, class_names, body_children. cbn [nodes flat_map].
  rewrite !app_nil_r. cbn [omap list_omap expression_of class_of].
  rewrite !omap_app. unfold mapped.
  cbn [omap list_omap expression_of class_of].
  rewrite (bubbles_expressions id), (bubbles_classes id).
  destruct (loading s); split; reflexivity.
Qed.

(** X7.  In a reachable configuration the typing indicator is on screen
    exactly while a request is out, and the button is disabled exactly
    then. *)
Theorem indicator_and_button_follow_the_request (c : chat) :
  reachable c ->
  (In typing_indicator (flat_map shown (body_children (hooks c)))
   <-> inflight c <> [])
  /\ snd <$> the_button (Chat (hooks c))
     = Some (match inflight c with [] => false | _ :: _ => true end).
Proof.
  intros Hc. apply reachable_consistent in Hc.
  rewrite body_shown, the_button_Chat.
  destruct Hc as [msgs draft|msgs draft userText|msgs draft res];
    cbn [hooks messages loading inflight fmap option_fmap option_map snd];
    (split; [|reflexivity]).
  - rewrite in_app_iff. split; [|congruence].
    intros [H|[H|[]]].
    + destruct (indicator_is_no_message msgs H).
    + unfold typing_indicator, Message_component in H. discriminate H.
  - split; [discriminate|]. intros _. rewrite !in_app_iff. right; left; left. reflexivity.
  - split; [discriminate|]. intros _. rewrite !in_app_iff. right; left; left. reflexivity.
Qed.

Lemma indicator_and_button_follow_the_request_witness :
  (In typing_indicator (flat_map shown (body_children (hooks A_is_out)))
   <-> inflight A_is_out <> [])
  /\ snd <$> the_button (Chat (hooks A_is_out))
     = Some (match inflight A_is_out with [] => false | _ :: _ => true end).
Proof.
  apply (indicator_and_button_follow_the_request A_is_out).
  exists [Change (js "A"); Submit; Change (js "B")]. reflexivity.
Defined.

(** X8.  Whatever happens after a reachable configuration, the keyed
    elements rendered for its messages are rendered again unchanged, with
    the same keys, before those of the new messages. *)
Theorem rendered_messages_are_stable (c : chat) (es : list event) (c' : chat) :
  reachable c ->
  run es c = Next c' ->
  (exists more,
      mapped (messages (hooks c')) = mapped (messages (hooks c)) ++ more)
  /\ (forall (i : nat) (elt : nat * vnode),
        mapped (messages (hooks c)) !! i = Some elt ->
        mapped (messages (hooks c')) !! i = Some elt).
Proof.
  intros Hc H.
  destruct (run_extends es c c' (reachable_consistent c Hc) H) as [new E].
  rewrite E, mapped_app. split.
  - eexists. reflexivity.
  - intros i elt Hi. apply lookup_app_l_Some, Hi.
Qed.

Lemma rendered_messages_are_stable_witness :
  (exists more,
      mapped (messages (hooks (idle (State [user_message (js "A"); fallback_message]
                                           (js "B") false))))
      = mapped (messages (hooks A_is_out)) ++ more)
  /\ (forall (i : nat) (elt : nat * vnode),
        mapped (messages (hooks A_is_out)) !! i = Some elt ->
        mapped (messages (hooks (idle (State [user_message (js "A"); fallback_message]
                                             (js "B") false)))) !! i = Some elt).
Proof.
  apply (rendered_messages_are_stable A_is_out [Submit; FetchSettles 0 Rejected]).
  - exists [Change (js "A"); Submit; Change (js "B")]. reflexivity.
  - reflexivity.
Defined.

(* ===================================================================== *)
(** ** Invariants of the conversation *)
(* ===================================================================== *)

Section Parked.

Lemma exchange_head (userText : jsstring) :
  exists k, exchange userText = AwaitFetch API_URL (post userText) k.
Proof. eexists. reflexivity. Qed.

Lemma reading_head (res : response) :
  exists k, reading res = AwaitJson res k.
Proof. eexists. reflexivity. Qed.

End Parked.

(** X9.  The messages of a reachable configuration are completed exchanges,
    each the user's message followed by the bot's, and after them the
    message of the submission that is out, present exactly while [loading]
    is true. *)
Theorem conversation_is_exchanges_then_pending (c : chat) :
  reachable c ->
  exists done,
    exchanges done
    /\ if loading (hooks c)
       then exists userText,
              to_boolean (trim userText) = true
              /\ messages (hooks c) = done ++ [user_message userText]
       else messages (hooks c) = done.
Proof.
  intros Hc. apply reachable_coherent in Hc.
  destruct Hc as [done draft Hd|done draft u Hd Hu|done draft u res Hd Hu];
    exists done; (split; [exact Hd|]); cbn [hooks loading messages]; eauto.
Qed.

Lemma conversation_is_exchanges_then_pending_witness :
  exists done,
    exchanges done
    /\ if loading (hooks A_is_out)
       then exists userText,
              to_boolean (trim userText) = true
              /\ messages (hooks A_is_out) = done ++ [user_message userText]
       else messages (hooks A_is_out) = done.
Proof.
  apply (conversation_is_exchanges_then_pending A_is_out).
  exists [Change (js "A"); Submit; Change (js "B")]. reflexivity.
Defined.

(** X10.  In a reachable configuration the turns alternate: the messages at
    even positions are the user's and those at odd positions the bot's; the
    number of messages is odd exactly while [loading] is true; and every
    message of the user holds a string that is not blank. *)
Theorem turns_alternate (c : chat) :
  reachable c ->
  (forall (i : nat) (m : message),
      messages (hooks c) !! i = Some m ->
      role m = if Nat.even i then user else bot)
  /\ Nat.even (length (messages (hooks c))) = negb (loading (hooks c))
  /\ (forall m,
        In m (messages (hooks c)) -> role m = user ->
        exists userText,
          text m = Of (JStr userText)
          /\ forallb is_white_space userText = false).
Proof.
  intros Hc. apply reachable_coherent in Hc.
  assert (Hblank : forall m,
             (exists u, m = user_message u /\ to_boolean (trim u) = true) ->
             exists u, text m = Of (JStr u) /\ forallb is_white_space u = false).
  { intros m (u & -> & Hu). exists u. split; [reflexivity|].
    rewrite to_boolean_trim in Hu. apply negb_true_iff, Hu. }
  destruct Hc as [done draft Hd|done draft u Hd Hu|done draft u res Hd Hu];
    cbn [hooks loading messages negb].
  - split; [exact (exchanges_roles done Hd)|].
    split; [exact (exchanges_even done Hd)|].
    intros m Hm Hr. exact (Hblank m (exchanges_user_texts done Hd m Hm Hr)).
  - split; [exact (pending_roles done u Hd)|]. split.
    + rewrite length_app, Nat.even_add, (exchanges_even done Hd). reflexivity.
    + intros m Hm Hr. exact (Hblank m (pending_user_texts done u Hd Hu m Hm Hr)).
  - split; [exact (pending_roles done u Hd)|]. split.
    + rewrite length_app, Nat.even_add, (exchanges_even done Hd). reflexivity.
    + intros m Hm Hr. exact (Hblank m (pending_user_texts done u Hd Hu m Hm Hr)).
Qed.

Lemma turns_alternate_witness :
  (forall (i : nat) (m : message),
      messages (hooks A_is_out) !! i = Some m ->
      role m = if Nat.even i then user else bot)
  /\ Nat.even (length (messages (hooks A_is_out))) = negb (loading (hooks A_is_out))
  /\ (forall m,
        In m (messages (hooks A_is_out)) -> role m = user ->
        exists userText,
          text m = Of (JStr userText)
          /\ forallb is_white_space userText = false).
Proof.
  apply (turns_alternate A_is_out).
  exists [Change (js "A"); Submit; Change (js "B")]. reflexivity.
Defined.

(** X11.  In a reachable configuration a pending fetch is the POST to
    [API_URL] whose body carries the text of the last message of the list,
    which is the user's: what the user types meanwhile does not reach the
    request. *)
Theorem pending_request_carries_last_message
    (c : chat) (url : jsstring) (init : request_init)
    (k : settled response -> proc unit) :
  reachable c ->
  inflight c = [AwaitFetch url init k] ->
  url = API_URL
  /\ exists done userText,
       init = post userText
       /\ messages (hooks c) = done ++ [user_message userText].
Proof.
  intros Hc H. apply reachable_coherent in Hc.
  destruct Hc as [done draft Hd|done draft u Hd Hu|done draft u res Hd Hu];
    cbn [inflight hooks messages] in *.
  - discriminate H.
  - destruct (exchange_head u) as [k0 E]. rewrite E in H.
    injection H as <- <- _. eauto.
  - destruct (reading_head res) as [k0 E]. rewrite E in H. discriminate H.
Qed.

Lemma pending_request_carries_last_message_witness :
  exists k,
    inflight A_is_out = [AwaitFetch API_URL (post (js "A")) k]
    /\ API_URL = API_URL
    /\ exists done userText,
         post (js "A") = post userText
         /\ messages (hooks A_is_out) = done ++ [user_message userText].
Proof.
  destruct (exchange_head (js "A")) as [k E].
  exists k. split; [exact (f_equal (fun p => [p]) E)|].
  apply (pending_request_carries_last_message A_is_out API_URL (post (js "A")) k).
  - exists [Change (js "A"); Submit; Change (js "B")]. reflexivity.
  - exact (f_equal (fun p => [p]) E).
Defined.

(** X12.  From a reachable configuration the component is lost in one kind
    of step only: the reading of the body settles and the body either parsed
    to [null] or carries a [reply] React cannot render (an object, or an
    array holding one).  No key, click or typing does it, and no other
    settlement. *)
Theorem unmounts_only_on_null_or_unrenderable_reply (c : chat) :
  reachable c ->
  (forall e,
      step e c = Crash
      <-> exists res k data,
            e = JsonSettles 0
            /\ inflight c = [AwaitJson res k]
            /\ parsed res = Some data
            /\ (data = JNull \/ value_renderable (reply_field data) = false))
  /\ (forall d, snd (dispatch d c) <> Crash).
Proof.
  intros Hc. apply reachable_consistent in Hc. split.
  - intros e. split.
    + intros H. destruct e as [v| |i r|i].
      * rewrite step_change in H. discriminate H.
      * destruct (submit_is_next c) as [c' E]. congruence.
      * destruct Hc; destruct i as [|[|i]]; try discriminate H.
        destruct r; [rewrite step_fetch_fulfilled in H|rewrite step_fetch_rejected in H];
          discriminate H.
      * destruct Hc as [msgs draft|msgs draft userText|msgs draft res];
          destruct i as [|[|i]]; try discriminate H.
        rewrite step_json in H.
        destruct res as [code [data|]]; cbn [bot_text parsed] in H;
          [|discriminate H].
        rewrite get_reply_spec in H.
        destruct (reading_head {| status := code; parsed := Some data |}) as [k E].
        exists {| status := code; parsed := Some data |}, k, data.
        rewrite <- E. repeat split.
        destruct data; [left; reflexivity|right..];
          destruct (value_renderable _); first [reflexivity|discriminate H].
    + intros (res & k & data & -> & Hi & Hp & Hbad).
      destruct Hc as [msgs draft|msgs draft userText|msgs draft res0];
        cbn [inflight] in Hi.
      * discriminate Hi.
      * destruct (exchange_head userText) as [k0 E]. rewrite E in Hi. discriminate Hi.
      * destruct (reading_head res0) as [k0 E].
        assert (res0 = res) as -> by (rewrite E in Hi; congruence).
        rewrite step_json. unfold bot_text. rewrite Hp, get_reply_spec.
        destruct Hbad as [->|Hbad]; [reflexivity|].
        destruct data; first [reflexivity|rewrite Hbad; reflexivity].
  - intros d. rewrite dispatch_spec.
    destruct (submit_is_next c) as [c' E].
    destruct d as [e| |v]; cbn [snd].
    + destruct (bool_decide (key e = js "Enter") && negb (shiftKey e)); cbn [snd];
        congruence.
    + destruct (loading (hooks c)); congruence.
    + rewrite step_change. discriminate.
Qed.

Lemma unmounts_only_on_null_or_unrenderable_reply_witness :
  (forall e,
      step e reading_null = Crash
      <-> exists res k data,
            e = JsonSettles 0
            /\ inflight reading_null = [AwaitJson res k]
            /\ parsed res = Some data
            /\ (data = JNull \/ value_renderable (reply_field data) = false))
  /\ (forall d, snd (dispatch d reading_null) <> Crash).
Proof.
  apply (unmounts_only_on_null_or_unrenderable_reply reading_null).
  exists [Change (js "Hello"); Submit; FetchSettles 0 (Fulfilled null_body)].
  reflexivity.
Defined.

(** X13.  While [loading] is true nothing the user does on the page (keys,
    Enter included, and typing; the button is disabled) touches the
    conversation or sends a second request: the messages, [loading] and
    the parked call stay as they are, and the draft is the last value
    typed. *)
Theorem page_is_inert_while_loading (ds : list dom_event) (c : chat) :
  loading (hooks c) = true ->
  forallb (fun d => negb (is_click d)) ds = true ->
  ui_run (map User ds) c
  = Next {| hooks := State (messages (hooks c))
                           (last_typed ds (input (hooks c))) true;
            inflight := inflight c |}.
Proof.
  revert c. induction ds as [|d ds IH]; intros c Hl Hds.
  - destruct c as [[m i l] p]. cbn in *. subst l. reflexivity.
  - cbn [forallb] in Hds. apply andb_prop in Hds as [Hd Hds].
    cbn [map ui_run ui_step]. rewrite dispatch_spec.
    assert (E : step Submit c = Next c)
      by (apply step_submit_ignored; rewrite Hl; apply orb_true_r).
    destruct d as [e| |v]; [| discriminate Hd |]; cbn [snd].
    + replace (snd (if bool_decide (key e = js "Enter") && negb (shiftKey e)
                    then (true, step Submit c) else (false, Next c)))
        with (Next c)
        by (destruct (bool_decide (key e = js "Enter") && negb (shiftKey e));
            cbn [snd]; congruence).
      rewrite (IH c Hl Hds). reflexivity.
    + rewrite step_change, IH by assumption. reflexivity.
Qed.

Lemma page_is_inert_while_loading_witness :
  ui_run (map User [KeyDown enter_key; InputChange (js "C");
                    KeyDown {| key := js "Enter"; shiftKey := true |}])
         A_is_out
  = Next {| hooks := State (messages (hooks A_is_out)) (js "C") true;
            inflight := inflight A_is_out |}.
Proof.
  apply (page_is_inert_while_loading
           [KeyDown enter_key; InputChange (js "C");
            KeyDown {| key := js "Enter"; shiftKey := true |}] A_is_out);
    reflexivity.
Defined.

(** X14.  Whatever the settlement, the resumed [sendMessage] calls
    [setMessages] once and then [setLoading(false)] once, and returns: after
    a rejected fetch with the fallback updater; after a fulfilled fetch it
    first suspends on the body without calling a setter, and then calls them
    with the reply updater when the body parsed (a [null] body included: the
    call itself does not throw) and with the fallback updater when it did
    not. *)
Theorem settlement_calls_two_setters (userText : jsstring) :
  (sync_effects (after_fetch (exchange userText) Rejected)
   = [SetMessages append_fallback; SetLoading false]
   /\ sync_rest (after_fetch (exchange userText) Rejected) = Ret tt)
  /\ (forall res,
        sync_effects (after_fetch (exchange userText) (Fulfilled res)) = []
        /\ (exists k, after_fetch (exchange userText) (Fulfilled res)
                      = AwaitJson res k)
        /\ (forall data,
              sync_effects (after_json (after_fetch (exchange userText) (Fulfilled res))
                                       (Fulfilled data))
              = [SetMessages (append_reply data); SetLoading false]
              /\ sync_rest (after_json (after_fetch (exchange userText) (Fulfilled res))
                                       (Fulfilled data)) = Ret tt)
        /\ sync_effects (after_json (after_fetch (exchange userText) (Fulfilled res))
                                    Rejected)
           = [SetMessages append_fallback; SetLoading false]
        /\ sync_rest (after_json (after_fetch (exchange userText) (Fulfilled res))
                                 Rejected) = Ret tt).
Proof.
  split; [split; reflexivity|].
  intros res. split; [reflexivity|]. split; [eexists; reflexivity|].
  split; [intros data; split; reflexivity|]. split; reflexivity.
Qed.

(* ===================================================================== *)
(** ** What the component survives *)
(* ===================================================================== *)

Section Rendering.

Implicit Types (c : chat) (e : event) (es : list event).

Lemma transition_renderable c e c' :
  transition c e c' ->
  forallb (fun m => value_renderable (text m)) (messages (hooks c)) = true ->
  forallb (fun m => value_renderable (text m)) (messages (hooks c')) = true.
Proof.
  intros T H.
  destruct T as [c v|c G|msgs draft G|s u res|s u|s res t Ht Hdrawn];
    cbn [hooks messages idle] in *; try exact H;
    rewrite forallb_app, H; cbn; rewrite ?Hdrawn; reflexivity.
Qed.

Lemma run_renderable es :
  forall c c', consistent c ->
  forallb (fun m => value_renderable (text m)) (messages (hooks c)) = true ->
  run es c = Next c' ->
  forallb (fun m => value_renderable (text m)) (messages (hooks c')) = true.
Proof.
  induction es as [|e es IH]; intros c c' Hc Hr; cbn [run].
  - intros [= <-]. exact Hr.
  - destruct (step e c) as [c1| | |] eqn:E; try discriminate.
    pose proof (step_transition _ _ _ Hc E) as T.
    apply IH.
    + exact (transition_consistent _ _ _ Hc T).
    + exact (transition_renderable _ _ _ T Hr).
Qed.

End Rendering.

(** X15.  The reply is not validated: for every response, of any status,
    whose body parses to a JSON value other than [null], and whose [reply]
    (when it has one) React can render, the submission appends one bot
    message whose text is the value of the body's [reply] property,
    [undefined] when there is none. *)
Theorem reply_field_is_not_validated
    (s : state) (es1 es2 : list event) (code : N) (data : json) :
  to_boolean (trim (input s)) = true ->
  loading s = false ->
  forallb user_event es1 = true ->
  forallb user_event es2 = true ->
  data <> JNull ->
  value_renderable (reply_field data) = true ->
  run (round_trip es1 (Fulfilled {| status := code; parsed := Some data |}) es2)
      (idle s)
  = Next (idle (State (messages s ++ [user_message (input s);
                                      bot_message (reply_field data)])
                      (typed (es1 ++ es2) []) false)).
Proof.
  intros Hd Hl H1 H2 Hn Hdrawn.
  rewrite round_trip_run by assumption. cbn [bot_text parsed meanwhile].
  rewrite get_reply_spec. destruct data; try contradiction; rewrite Hdrawn; reflexivity.
Qed.

Lemma reply_field_is_not_validated_witness :
  run (round_trip [] (Fulfilled server_error) []) (idle hello)
  = Next (idle (State (messages hello
                       ++ [user_message (input hello);
                           bot_message (reply_field
                             (JObj {[ js "detail" := JStr (js "Internal Server Error") ]}))])
                      (typed ([] ++ []) []) false)).
Proof.
  apply (reply_field_is_not_validated hello [] [] 500
           (JObj {[ js "detail" := JStr (js "Internal Server Error") ]}));
    first [reflexivity | discriminate].
Defined.

(** X16.  The code never clears the draft when a submission completes: in
    every step that leaves the component mounted, the two settlement steps
    and an ignored submit leave [input] as it is, an accepted submit empties
    it and typing replaces it.  So after every settlement the component
    survives (the body is not [null] and its [reply] can be rendered), the
    draft is what the user typed last while the request was out. *)
Theorem draft_cleared_at_submit_only :
  (forall c e c',
     reachable c -> step e c = Next c' ->
     input (hooks c') =
     match e with
     | Change v => v
     | Submit =>
         if negb (to_boolean (trim (input (hooks c)))) || loading (hooks c)
         then input (hooks c) else []
     | FetchSettles _ _ | JsonSettles _ => input (hooks c)
     end)
  /\ (forall s es1 r es2,
        to_boolean (trim (input s)) = true ->
        loading s = false ->
        forallb user_event es1 = true ->
        forallb user_event es2 = true ->
        (forall res data,
            r = Fulfilled res -> parsed res = Some data ->
            data <> JNull /\ value_renderable (reply_field data) = true) ->
        exists c',
          run (round_trip es1 r es2) (idle s) = Next c'
          /\ input (hooks c') = typed (meanwhile es1 r es2) []
          /\ loading (hooks c') = false
          /\ inflight c' = []).
Proof.
  split.
  - intros c e c' Hc H.
    apply transition_draft, step_transition; [apply reachable_consistent, Hc|exact H].
  - intros s es1 r es2 Hd Hl H1 H2 Hr.
    destruct (bot_text_drawn r Hr) as (t & Ht & Hdrawn).
    rewrite round_trip_run by assumption. rewrite Ht, Hdrawn.
    eexists. split; [reflexivity|]. cbn. auto.
Qed.

Lemma draft_cleared_at_submit_only_witness :
  exists c',
    run [Submit; Change (js "B"); FetchSettles 0 (Fulfilled hi_there);
         Change (js "Bye"); JsonSettles 0] (idle hello) = Next c'
    /\ input (hooks c') = js "Bye"
    /\ loading (hooks c') = false
    /\ inflight c' = [].
Proof.
  apply (proj2 draft_cleared_at_submit_only hello
           [Change (js "B")] (Fulfilled hi_there) [Change (js "Bye")]);
    try reflexivity.
  intros res data [= <-] [= <-]. split; [discriminate|reflexivity].
Defined.

(** X17.  In every reachable configuration React can render the text of
    every message in the list; so whatever an update appends, rendering what
    it brings and rendering the whole list succeed or fail together. *)
Theorem reachable_messages_render (c : chat) :
  reachable c ->
  forallb (fun m => value_renderable (text m)) (messages (hooks c)) = true
  /\ (forall new draft busy,
        renders (hooks c) (State (messages (hooks c) ++ new) draft busy)
        = forallb (fun m => value_renderable (text m))
                  (messages (hooks c) ++ new)).
Proof.
  intros [es H].
  assert (Hr : forallb (fun m => value_renderable (text m)) (messages (hooks c)) = true)
    by exact (run_renderable es mount c consistent_mount eq_refl H).
  split; [exact Hr|].
  intros new draft busy. unfold renders. cbn [messages].
  rewrite drop_app_length, forallb_app, Hr. reflexivity.
Qed.

Lemma reachable_messages_render_witness :
  forallb (fun m => value_renderable (text m)) (messages (hooks A_is_out)) = true
  /\ (forall new draft busy,
        renders (hooks A_is_out) (State (messages (hooks A_is_out) ++ new) draft busy)
        = forallb (fun m => value_renderable (text m))
                  (messages (hooks A_is_out) ++ new)).
Proof.
  apply (reachable_messages_render A_is_out).
  exists [Change (js "A"); Submit; Change (js "B")]. reflexivity.
Defined.
